(** * keycloak_user: reconciliation of one Keycloak user account

    A shallow embedding of [main] of
    [plugins/modules/identity/keycloak/keycloak_user.py]: the values the
    module handles, the parameter table of its argument spec, the changeset
    and merge computation, the state-transition tree and the calls it makes
    on the Keycloak API object, followed by the properties listed in the
    design document of the module. *)

From stdpp Require Import gmap strings list fin_maps.
From Stdlib Require Import ZArith Ascii.

Set Warnings "-register-all".
Local Open Scope string_scope.
Local Open Scope list_scope.
Local Open Scope nat_scope.

(** ** Python / JSON values *)

(** What a module parameter or a field of a user representation can hold:
    [None], booleans, integers, strings, lists and string-keyed dicts.
    Floating point numbers are left out. *)
Inductive value :=
  | VNone
  | VBool (b : bool)
  | VInt (z : Z)
  | VStr (s : string)
  | VList (l : list value)
  | VDict (d : gmap string value).

(** A user representation, a changeset and the merged body are all Python
    dicts keyed by field name. *)
Abbreviation user := (gmap string value).

(** Python's [==] on these values: [bool] is a subclass of [int], so
    [True == 1]; lists compare element by element in order; dicts compare by
    size and by the value under every key, whatever the insertion order. *)
Fixpoint py_eq (a b : value) {struct a} : bool :=
  match a, b with
  | VNone, VNone => true
  | VBool x, VBool y => bool_decide (x = y)
  | VBool x, VInt y => bool_decide (Z.b2z x = y)
  | VInt x, VBool y => bool_decide (x = Z.b2z y)
  | VInt x, VInt y => bool_decide (x = y)
  | VStr x, VStr y => bool_decide (x = y)
  | VList xs, VList ys =>
      (fix go (xs ys : list value) : bool :=
         match xs, ys with
         | [], [] => true
         | x :: xs', y :: ys' => py_eq x y && go xs' ys'
         | _, _ => false
         end) xs ys
  | VDict d1, VDict d2 =>
      bool_decide (size d1 = size d2) &&
      map_fold (λ k v acc,
                 acc && match d2 !! k with
                        | Some w => py_eq v w
                        | None => false
                        end) true d1
  | _, _ => false
  end.

(** [a != b] *)
Definition py_ne (a b : value) : bool := negb (py_eq a b).

(** [v is None] *)
Definition is_none (v : value) : bool :=
  match v with VNone => true | _ => false end.

(** [isinstance(v, list)] *)
Definition is_list (v : value) : bool :=
  match v with VList _ => true | _ => false end.

(** ** Parameter names and their translation *)

Definition upper (c : ascii) : ascii :=
  let n := nat_of_ascii c in
  if (97 <=? n)%nat && (n <=? 122)%nat then ascii_of_nat (n - 32) else c.

Fixpoint camel_from (up : bool) (s : string) : string :=
  match s with
  | EmptyString => EmptyString
  | String c s' =>
      if Ascii.eqb c "_" then camel_from true s'
      else String (if up then upper c else c) (camel_from false s')
  end.

(** Modelled from the spec: [camel] is imported from the shared Keycloak
    helper module, which is not part of the sources at hand. The design
    document describes it as the translation of a snake_case parameter name
    to the camelCase field name of the remote API: the underscores go and
    the letter after each one is capitalised. *)
Definition camel (words : string) : string := camel_from false words.

(** Modelled from the spec: the keys of [keycloak_argument_spec()], the
    connection and authentication options shared by the Keycloak modules.
    The helper is not part of the sources at hand; the names are those this
    module itself mentions in [required_one_of], [required_together] and
    its examples. *)
Definition keycloak_argument_spec_keys : list string :=
  ["auth_keycloak_url"; "auth_client_id"; "auth_realm";
   "auth_username"; "auth_password"; "token"].

(** [module.params]: the options in argument-spec order, each with the
    supplied value, its default, or [None]. *)
Abbreviation params := (list (string * value)).

(** [module.params.get(x)] *)
Fixpoint params_get (x : string) (ps : params) : value :=
  match ps with
  | [] => VNone
  | (k, v) :: ps' => if decide (k = x) then v else params_get x ps'
  end.

(** [module.params[x] = v] for an option of the argument spec. *)
Fixpoint params_set (x : string) (v : value) (ps : params) : params :=
  match ps with
  | [] => [(x, v)]
  | (k, w) :: ps' =>
      if decide (k = x) then (k, v) :: ps' else (k, w) :: params_set x v ps'
  end.

(** ** The caller's input *)

Inductive state_choice := present | absent.

Record credential := {
  cred_type : option string;
  cred_value : option string;
  cred_temporary : option bool;
  cred_userLabel : option string;
}.

(** The options of [meta_args], as the caller supplies them: [None] is an
    option left out. *)
Record DesiredSpec := {
  d_state : option state_choice;
  d_realm : option string;
  d_id : option string;
  d_name : option string;
  d_attributes : option (gmap string value);
  d_email : option string;
  d_enabled : option bool;
  d_first_name : option string;
  d_last_name : option string;
  d_required_actions : option (list string);
  d_credentials : option (list credential);
  d_email_verified : option bool;
}.

(** The connection options of [keycloak_argument_spec()]. *)
Record connection := {
  auth_keycloak_url : option string;
  auth_client_id : option string;
  auth_realm : option string;
  auth_username : option string;
  auth_password : option string;
  token : option string;
}.

(** One run of the module: the options, the keys the caller passed under
    an alias name, and the two switches of the Ansible runtime,
    [module.check_mode] and [module._diff]. The module's own example
    (line 180) passes [username], which is no option of [meta_args] but an
    alias declared by the shared argument spec. *)
Record invocation := {
  conn : connection;
  spec : DesiredSpec;
  aliases : list (string * value);
  check_mode : bool;
  diff_mode : bool;
}.

Definition opt_value {A} (f : A → value) (o : option A) : value :=
  match o with Some a => f a | None => VNone end.

Definition state_value (s : state_choice) : value :=
  match s with present => VStr "present" | absent => VStr "absent" end.

(** A credential with its sub-options filled in ([temporary] defaults to
    [False], the others to [None]). *)
Definition credential_value (c : credential) : value :=
  VDict (<["type" := opt_value VStr (cred_type c)]>
        (<["value" := opt_value VStr (cred_value c)]>
        (<["temporary" := VBool (default false (cred_temporary c))]>
        (<["userLabel" := opt_value VStr (cred_userLabel c)]> ∅)))).

(** The option names of the argument spec, in order. *)
Definition option_names : list string :=
  keycloak_argument_spec_keys ++
  ["state"; "realm"; "id"; "name"; "attributes"; "email"; "enabled";
   "first_name"; "last_name"; "required_actions"; "credentials";
   "email_verified"].

(** The option values after the defaults of the argument spec
    (lines 333-355) are applied: [state="present"], [realm="master"],
    [enabled=True], [email_verified=True]. The connection options come
    first because [argument_spec] starts as [keycloak_argument_spec()] and
    is then updated with [meta_args]. *)
Definition option_values (inv : invocation) : params :=
  let c := conn inv in
  let d := spec inv in
  [ ("auth_keycloak_url", opt_value VStr (auth_keycloak_url c));
    ("auth_client_id", opt_value VStr (auth_client_id c));
    ("auth_realm", opt_value VStr (auth_realm c));
    ("auth_username", opt_value VStr (auth_username c));
    ("auth_password", opt_value VStr (auth_password c));
    ("token", opt_value VStr (token c));
    ("state", state_value (default present (d_state d)));
    ("realm", VStr (default "master" (d_realm d)));
    ("id", opt_value VStr (d_id d));
    ("name", opt_value VStr (d_name d));
    ("attributes", opt_value VDict (d_attributes d));
    ("email", opt_value VStr (d_email d));
    ("enabled", VBool (default true (d_enabled d)));
    ("first_name", opt_value VStr (d_first_name d));
    ("last_name", opt_value VStr (d_last_name d));
    ("required_actions",
      opt_value (λ l, VList (VStr <$> l)) (d_required_actions d));
    ("credentials",
      opt_value (λ l, VList (credential_value <$> l)) (d_credentials d));
    ("email_verified", VBool (default true (d_email_verified d))) ].

(** The alias keys as a dict holds them: a key that is an option name, or
    that came earlier in the list, is dropped. *)
Fixpoint alias_entries (seen : list string) (l : params) : params :=
  match l with
  | [] => []
  | (k, v) :: l' =>
      if decide (k ∈ seen) then alias_entries seen l'
      else (k, v) :: alias_entries (k :: seen) l'
  end.

Definition alias_params (inv : invocation) : params :=
  alias_entries option_names (aliases inv).

(** Modelled from the spec: [AnsibleModule] is not part of the sources at
    hand. [module.params] holds every option of the argument spec under
    its own name and, for an option the caller passed under an alias, the
    alias key as well, with the value the caller gave. The loop of
    lines 397-402 walks every key of this dict. *)
Definition module_params (inv : invocation) : params :=
  option_values inv ++ alias_params inv.

(** ** Normalisation of [attributes] (lines 387-394) *)

(** [[val] if not isinstance(val, list) else val] *)
Definition normalize (val : value) : value :=
  if is_list val then val else VList [val].

(** The loop over [module.params["attributes"].items()], run when
    [attributes is not None]. An [attributes] option is a dict by the
    argument spec; any other value is left alone. *)
Definition normalize_attributes (ps : params) : params :=
  match params_get "attributes" ps with
  | VDict d => params_set "attributes" (VDict (normalize <$> d)) ps
  | _ => ps
  end.

(** ** Projection of the user options (lines 396-402) *)

Definition excluded_names : list string :=
  keycloak_argument_spec_keys ++ ["state"; "realm"].

Definition user_params (ps : params) : list string :=
  filter (λ x, (x ∉ excluded_names) ∧ (is_none (params_get x ps) = false))
         (ps.*1).

(** ** The changeset and the merged body (lines 413-428) *)

(** One turn of the loop over [user_params]. *)
Definition changeset_step (ps : params) (before_user : user)
    (changeset : user) (param : string) : user :=
  let new_param_value := params_get param ps in
  let old_value := default VNone (before_user !! param) in
  if decide (param = "name") then
    <[(camel "username") := new_param_value]> changeset
  else if decide (param = "user_groups") then
    <[(camel "groups") := new_param_value]> changeset
  else if py_ne new_param_value old_value then
    <[(camel param) := new_param_value]> changeset
  else changeset.

Definition build_changeset (ps : params) (before_user : user) : user :=
  foldl (changeset_step ps before_user) ∅ (user_params ps).

(** [desired_user = before_user.copy(); desired_user.update(changeset)] *)
Definition merge_user (changeset before_user : user) : user :=
  changeset ∪ before_user.

(** ** Results, failures and the calls on the API object *)

(** A message: a literal, or a template with the keyword arguments handed
    to [str.format] (the rendering to text is not modelled). *)
Inductive message :=
  | MsgText (s : string)
  | MsgFormat (template : string) (kwargs : list (string * value)).

(** The [result] dict. [diff] is [{}] ([None] here) or
    [dict(before=.., after=..)]; the key [end_state] is absent until
    assigned. *)
Record result := {
  changed : bool;
  msg : message;
  diff : option (value * value);
  res_user : value;
  end_state : option user;
}.

Inductive exception :=
  | KeyError (key : string)
  | TypeError
  | KeycloakError (e : string).

(** How a run ends: [module.exit_json], [module.fail_json], or an exception
    nobody catches. *)
Inductive outcome :=
  | ExitJson (r : result)
  | FailJson (m : message)
  | Raise (e : exception).

Inductive call :=
  | GetUserByName (username realm : value)
  | GetUserByUserid (uid realm : value)
  | CreateUser (userrep : user) (realm : value)
  | UpdateUser (userrep : user) (realm : value)
  | DeleteUser (userid realm : value).

Definition mutating (c : call) : bool :=
  match c with
  | GetUserByName _ _ | GetUserByUserid _ _ => false
  | CreateUser _ _ | UpdateUser _ _ | DeleteUser _ _ => true
  end.

(** What a call on the remote side comes back with. *)
Inductive response (A : Type) :=
  | Reply (a : A)
  | Failure (e : string).
Arguments Reply {A} a.
Arguments Failure {A} e.

(** The collaborator: token acquisition and the five user calls of
    [KeycloakAPI], over any type [G] of remote states. The lookups do not
    change the remote state; the other three return the new one. *)
Class KeycloakAPI (G : Type) := {
  get_token : params → G → response string;
  get_user_by_name : value → value → G → response (option user);
  get_user_by_userid : value → value → G → response (option user);
  create_user : user → value → G → response G;
  update_user : user → value → G → response G;
  delete_user : value → value → G → response G;
}.

(** ** The module body as a state and exit monad *)

Section engine.
Context {G : Type} `{!KeycloakAPI G}.

  (** The remote state and the calls made so far, oldest first. *)
Record world := World { remote : G; trace : list call }.

  (** A computation either goes on with a value or ends the run. *)
Definition M (A : Type) : Type := world → (A + outcome) * world.

Definition kc_ret {A} (a : A) : M A := λ w, (inl a, w).

Definition kc_bind {A B} (m : M A) (k : A → M B) : M B :=
    λ w, match m w with
         | (inl a, w') => k a w'
         | (inr o, w') => (inr o, w')
         end.

Definition exit_json {A} (r : result) : M A := λ w, (inr (ExitJson r), w).
Definition fail_json {A} (m : message) : M A := λ w, (inr (FailJson m), w).
Definition raise {A} (e : exception) : M A := λ w, (inr (Raise e), w).

Definition logged (c : call) (w : world) : world :=
    World (remote w) (trace w ++ [c]).

  (** A read-only call: logged, the remote state untouched. *)
Definition kc_read {A} (c : call) (f : G → response A) : M A :=
    λ w, match f (remote w) with
         | Reply a => (inl a, logged c w)
         | Failure e => (inr (Raise (KeycloakError e)), logged c w)
         end.

  (** A mutating call: logged, the remote state replaced on success. *)
Definition kc_write (c : call) (f : G → response G) : M unit :=
    λ w, match f (remote w) with
         | Reply g => (inl (), World g (trace w ++ [c]))
         | Failure e => (inr (Raise (KeycloakError e)), logged c w)
         end.

Definition kc_get_user_by_name (username realm : value) : M (option user) :=
    kc_read (GetUserByName username realm) (get_user_by_name username realm).
Definition kc_get_user_by_userid (uid realm : value) : M (option user) :=
    kc_read (GetUserByUserid uid realm) (get_user_by_userid uid realm).
Definition kc_create_user (userrep : user) (realm : value) : M unit :=
    kc_write (CreateUser userrep realm) (create_user userrep realm).
Definition kc_update_user (userrep : user) (realm : value) : M unit :=
    kc_write (UpdateUser userrep realm) (update_user userrep realm).
Definition kc_delete_user (userid realm : value) : M unit :=
    kc_write (DeleteUser userid realm) (delete_user userid realm).

  (** [d[k]] on a dict. *)
Definition subscript (d : user) (k : string) : M value :=
    match d !! k with
    | Some v => kc_ret v
    | None => raise (KeyError k)
    end.

  (** [o[k]] where [o] may be [None]. *)
Definition subscript_opt (o : option user) (k : string) : M value :=
    match o with
    | Some d => subscript d k
    | None => raise TypeError
    end.
End engine.

Arguments world G : clear implicits.
Arguments M G A : clear implicits.

Global Instance M_ret {G} : MRet (M G) := λ A, kc_ret.
Global Instance M_bind {G} : MBind (M G) := λ A B k m, kc_bind m k.

(** ** [AnsibleModule(...)] (lines 359-369) *)

(** Whether option [x] was given a value. *)
Definition supplied (ps : params) (x : string) : bool :=
  negb (is_none (params_get x ps)).

(** [required_together]: of a group, all or none. *)
Definition together_ok (ps : params) (group : list string) : bool :=
  forallb (supplied ps) group || negb (existsb (supplied ps) group).

(** [required_one_of]: of a group, at least one. *)
Definition one_of_ok (ps : params) (group : list string) : bool :=
  existsb (supplied ps) group.

Definition required_together : list (list string) :=
  [["auth_realm"; "auth_username"; "auth_password"]].

Definition required_one_of : list (list string) :=
  [["id"; "name"];
   ["token"; "auth_realm"; "auth_username"; "auth_password"]].

(** The text of the failure: the names of the first violated group,
    separated by commas. *)
Definition group_message (text : string) (ok : list string → bool)
    (groups : list (list string)) : string :=
  match List.find (λ group, negb (ok group)) groups with
  | Some group => String.append text (String.concat ", " group)
  | None => text
  end.

Definition together_message (ps : params) : string :=
  group_message "parameters are required together: " (together_ok ps)
    required_together.

Definition one_of_message (ps : params) : string :=
  group_message "one of the following is required: " (one_of_ok ps)
    required_one_of.

Section main.
Context {G : Type} `{!KeycloakAPI G}.

  (** The constructor applies the defaults and checks the two requirement
      tables, [required_together] first; the first group that is violated
      ends the run through [fail_json], with the names of the group in the
      message. *)
Definition ansible_module (inv : invocation) : M G params :=
    let ps := module_params inv in
    if negb (forallb (together_ok ps) required_together) then
      fail_json (MsgText (together_message ps))
    else if negb (forallb (one_of_ok ps) required_one_of) then
      fail_json (MsgText (one_of_message ps))
    else mret ps.

  (** Lines 373-379: [get_token(module.params)]; a [KeycloakError] is
      turned into [fail_json(msg=str(e))]. *)
Definition acquire_token (ps : params) : M G string :=
    λ w, match get_token ps (remote w) with
         | Reply h => (inl h, w)
         | Failure e => (inr (FailJson (MsgText e)), w)
         end.

  (** Lines 331-411: everything up to and including the lookup. Returns the
      parameters after normalisation and what the lookup came back with. *)
Definition fetch_current (inv : invocation) : M G (params * option user) :=
    ps ← ansible_module inv;
    _ ← acquire_token ps;
    let realm := params_get "realm" ps in
    let uid := params_get "id" ps in
    let username := params_get "name" ps in
    let ps := normalize_attributes ps in
    before_user ←
      (if is_none uid then kc_get_user_by_name username realm
       else kc_get_user_by_userid uid realm);
    mret (ps, before_user).

Definition initial_result : result :=
    {| changed := false; msg := MsgText ""; diff := None;
       res_user := VStr ""; end_state := None |}.

Definition set_diff (before after : value) (r : result) : result :=
    {| changed := changed r; msg := msg r; diff := Some (before, after);
       res_user := res_user r; end_state := end_state r |}.

Definition set_changed (b : bool) (r : result) : result :=
    {| changed := b; msg := msg r; diff := diff r;
       res_user := res_user r; end_state := end_state r |}.

  (** [result["end_state"] = u; result["user"] = result["end_state"]] *)
Definition set_end_state (u : user) (r : result) : result :=
    {| changed := changed r; msg := msg r; diff := diff r;
       res_user := VDict u; end_state := Some u |}.

Definition set_msg (m : message) (r : result) : result :=
    {| changed := changed r; msg := m; diff := diff r;
       res_user := res_user r; end_state := end_state r |}.

Definition when_diff (inv : invocation) (before after : value)
      (r : result) : result :=
    if diff_mode inv then set_diff before after r else r.

  (** Lines 410-520: the changeset, the merged body and the four-way
      decision on (resource found?, state). Where the source stores an
      [after_user] that is [None] under [end_state], the subscript on the
      next line raises before the result is ever returned, so the model
      keeps an empty dict there. *)
Definition reconcile (inv : invocation) (ps : params)
      (fetched : option user) : M G Empty_set :=
    let result := initial_result in
    let realm := params_get "realm" ps in
    let state := params_get "state" ps in
    let username := params_get "name" ps in
    let before_user := default ∅ fetched in
    let changeset := build_changeset ps before_user in
    let desired_user := merge_user changeset before_user in
    if decide (before_user = ∅) then
      if py_eq state (VStr "absent") then
        let result := when_diff inv (VStr "") (VStr "") result in
        let result := set_changed false result in
        let result := set_end_state ∅ result in
        let result :=
          set_msg (MsgText "user does not exist; doing nothing.") result in
        exit_json result
      else if is_none username then
        fail_json (MsgText "name must be specified when creating a new user")
      else
        let result := when_diff inv (VStr "") (VDict desired_user) result in
        if check_mode inv then exit_json result
        else
          _ ← kc_create_user desired_user realm;
          after_user ← kc_get_user_by_name username realm;
          let result := set_end_state (default ∅ after_user) result in
          name ← subscript_opt after_user "username";
          id ← subscript_opt after_user "id";
          let result :=
            set_msg (MsgFormat "user {name} has been created with ID {id}"
                       [("name", name); ("id", id)]) result in
          let result := set_changed true result in
          exit_json result
    else if py_eq state (VStr "present") then
      if py_eq (VDict desired_user) (VDict before_user) then
        let result := set_changed false result in
        let result := set_end_state desired_user result in
        name ← subscript before_user "username";
        let result :=
          set_msg (MsgFormat "No changes required to user {name}."
                     [("name", name)]) result in
        exit_json result
      else
        let result := set_changed true result in
        let result :=
          when_diff inv (VDict before_user) (VDict desired_user) result in
        if check_mode inv then exit_json result
        else
          _ ← kc_update_user desired_user realm;
          id ← subscript desired_user "id";
          after_user ← kc_get_user_by_userid id realm;
          let result := set_end_state (default ∅ after_user) result in
          id' ← subscript_opt after_user "id";
          let result :=
            set_msg (MsgFormat "user {id} has been updated"
                       [("id", id')]) result in
          exit_json result
    else
      let result := set_changed true result in
      let result := when_diff inv (VDict before_user) (VStr "") result in
      if check_mode inv then exit_json result
      else
        uid ← subscript before_user "id";
        _ ← kc_delete_user uid realm;
        let result := set_end_state ∅ result in
        name ← subscript before_user "username";
        let result :=
          set_msg (MsgFormat "user {name} has been deleted"
                     [("name", name)]) result in
        exit_json result.

Definition main (inv : invocation) : M G Empty_set :=
    '(ps, before_user) ← fetch_current inv;
    reconcile inv ps before_user.

  (** Running [main] against a remote state: how the run ended, the calls
      it made, and the remote state it left. *)
Definition finish (x : (Empty_set + outcome) * world G)
    : outcome * list call * G :=
    match x with
    | (inl e, _) => match e with end
    | (inr o, w) => (o, trace w, remote w)
    end.

Definition run (inv : invocation) (g : G) : outcome * list call * G :=
    finish (main inv (World g [])).
End main.

(** ** A reference remote side *)

(** Modelled from the spec: [KeycloakAPI] lives in the shared helper module,
    which is not part of the sources at hand. This is the gateway the design
    document describes: users are kept per realm, a lookup returns the stored
    representation, [create] and [update] store the body they are sent, and
    user names are unique within a realm (a second user of the same name is
    refused). A created user without an id is assigned one. *)
Module Store.

  (** An entry is a realm and the representation stored in it. *)
Abbreviation store := (list (value * user)).

Definition has_field (k : string) (v : value) (u : user) : bool :=
    match u !! k with
    | Some x => py_eq x v
    | None => false
    end.

Definition by_name (username realm : value) (e : value * user) : bool :=
    py_eq e.1 realm && has_field "username" username e.2.

Definition by_id (uid realm : value) (e : value * user) : bool :=
    py_eq e.1 realm && has_field "id" uid e.2.

Fixpoint find_entry (f : value * user → bool) (s : store) : option user :=
    match s with
    | [] => None
    | e :: s' => if f e then Some e.2 else find_entry f s'
    end.

Fixpoint replace_first (f : value * user → bool) (e' : value * user)
      (s : store) : store :=
    match s with
    | [] => []
    | e :: s' => if f e then e' :: s' else e :: replace_first f e' s'
    end.

Fixpoint remove_all (f : value * user → bool) (s : store) : store :=
    match s with
    | [] => []
    | e :: s' => if f e then remove_all f s' else e :: remove_all f s'
    end.

Definition id_length (e : value * user) : nat :=
    match e.2 !! "id" with
    | Some (VStr i) => String.length i
    | _ => 0
    end.

Fixpoint zeros (n : nat) : string :=
    match n with
    | O => EmptyString
    | S n' => String "0" (zeros n')
    end.

  (** An id longer than every id in the store. *)
Definition fresh_id (s : store) : value :=
    VStr (zeros (S (foldr (λ e n, id_length e `max` n) 0 s))).

Definition lookup_by_name (username realm : value) (s : store)
      : response (option user) :=
    Reply (find_entry (by_name username realm) s).

Definition lookup_by_id (uid realm : value) (s : store)
      : response (option user) :=
    Reply (find_entry (by_id uid realm) s).

Definition create (userrep : user) (realm : value) (s : store)
      : response store :=
    match userrep !! "username" with
    | None => Failure "400 Bad Request: username missing"
    | Some n =>
        if existsb (by_name n realm) s then
          Failure "409 Conflict: user exists with same username"
        else
          match userrep !! "id" with
          | Some i =>
              if existsb (by_id i realm) s then
                Failure "409 Conflict: user exists with same id"
              else Reply (s ++ [(realm, userrep)])%list
          | None => Reply (s ++ [(realm, <["id" := fresh_id s]> userrep)])%list
          end
    end.

Definition update (userrep : user) (realm : value) (s : store)
      : response store :=
    match userrep !! "id" with
    | None => Failure "KeyError: id"
    | Some i =>
        if existsb (by_id i realm) s then
          Reply (replace_first (by_id i realm) (realm, userrep) s)
        else Failure "404 Not Found"
    end.

Definition delete (userid realm : value) (s : store) : response store :=
    if existsb (by_id userid realm) s then
      Reply (remove_all (by_id userid realm) s)
    else Failure "404 Not Found".

Definition token_for (ps : params) (s : store) : response string :=
    Reply "Bearer".

#[global] Instance api : KeycloakAPI store := {|
    get_token := token_for;
    get_user_by_name := lookup_by_name;
    get_user_by_userid := lookup_by_id;
    create_user := create;
    update_user := update;
    delete_user := delete;
  |}.

  (** Every stored user has a user name, and no two entries of a realm
      share one. *)
Definition named (s : store) : Prop :=
    Forall (λ e : value * user, is_Some (e.2 !! "username")) s.

Definition unambiguous (s : store) : Prop :=
    ∀ username realm : value,
      (length (List.filter (by_name username realm) s) ≤ 1)%nat.

End Store.

(** ** Derived notions *)

(** The options that describe the user: the argument spec without the
    connection options and without [state] and [realm]. *)
Definition user_option_names : list string :=
  ["id"; "name"; "attributes"; "email"; "enabled"; "first_name";
   "last_name"; "required_actions"; "credentials"; "email_verified"].

(** The key of the changeset a parameter is written under. *)
Definition remote_name (param : string) : string :=
  if decide (param = "name") then camel "username"
  else if decide (param = "user_groups") then camel "groups"
  else camel param.

(** Whether the loop writes the parameter into the changeset. *)
Definition in_changeset (ps : params) (before_user : user)
    (param : string) : bool :=
  bool_decide (param = "name") || bool_decide (param = "user_groups") ||
  py_ne (params_get param ps) (default VNone (before_user !! param)).

(** The caller passed every option under its own name: [module.params]
    holds no alias key. *)
Definition no_alias (inv : invocation) : Prop := alias_params inv = [].

(** The parameters as [main] uses them for the changeset. *)
Definition effective_params (inv : invocation) : params :=
  normalize_attributes (module_params inv).

Section lookups.
Context {G : Type} `{!KeycloakAPI G}.

(** The one lookup of a run: by name when no id was given, by id
    otherwise. *)
Definition lookup_call (ps : params) : call :=
  if is_none (params_get "id" ps)
  then GetUserByName (params_get "name" ps) (params_get "realm" ps)
  else GetUserByUserid (params_get "id" ps) (params_get "realm" ps).

Definition lookup (ps : params) (g : G) : response (option user) :=
  if is_none (params_get "id" ps)
  then get_user_by_name (params_get "name" ps) (params_get "realm" ps) g
  else get_user_by_userid (params_get "id" ps) (params_get "realm" ps) g.

Definition valid_options (inv : invocation) : bool :=
  forallb (together_ok (module_params inv)) required_together &&
  forallb (one_of_ok (module_params inv)) required_one_of.

(** The run gets as far as the decision: the options pass the checks of
    the constructor, a token is granted and the lookup answers [fetched]. *)
Definition reaches (inv : invocation) (g : G) (fetched : option user)
    : Prop :=
  valid_options inv = true ∧
  (∃ h, get_token (module_params inv) g = Reply h) ∧
  lookup (module_params inv) g = Reply fetched.

End lookups.

Definition no_mutation (tr : list call) : Prop :=
  Forall (λ c, mutating c = false) tr.

(** What the decision stage reports in check mode, as a function of the
    parameters and of the user the lookup returned. *)
Definition dry_changed (ps : params) (before_user : user) : bool :=
  if decide (before_user = ∅) then false
  else if py_eq (params_get "state" ps) (VStr "present") then
    py_ne (VDict (merge_user (build_changeset ps before_user) before_user))
          (VDict before_user)
  else true.

Definition dry_diff (ps : params) (before_user : user) : value * value :=
  (VDict before_user,
   if py_eq (params_get "state" ps) (VStr "present")
   then VDict (merge_user (build_changeset ps before_user) before_user)
   else VStr "").

Section store_view.
Import Store.

(** The realm of a run. *)
Definition realm_of (inv : invocation) : value :=
  VStr (default "master" (d_realm (spec inv))).

(** What the lookup of a run finds in a store: by id when one is given, by
    name otherwise. *)
Definition store_lookup (inv : invocation) (s : store) : option user :=
  match d_id (spec inv) with
  | Some i => find_entry (by_id (VStr i) (realm_of inv)) s
  | None =>
      find_entry (by_name (opt_value VStr (d_name (spec inv))) (realm_of inv)) s
  end.

End store_view.

(** Size of a value, the measure for induction through the nested lists and
    dicts. *)
Fixpoint vsize (v : value) : nat :=
  match v with
  | VList l => S (foldr (λ x acc, vsize x + acc) 0 l)
  | VDict d => S (map_fold (λ _ x acc, vsize x + acc) 0 d)
  | _ => 1
  end.

(** ** Sample inputs *)

Definition token_conn : connection :=
  {| auth_keycloak_url := Some "https://auth.example.com/auth";
     auth_client_id := Some "admin-cli"; auth_realm := None;
     auth_username := None; auth_password := None; token := Some "TOKEN" |}.

(** A spec with the given state, id, name, e-mail, first name and enabled
    flag, and every other option left out. *)
Definition sample_spec (st : option state_choice)
    (uid name email first : option string) (en : option bool) : DesiredSpec :=
  {| d_state := st; d_realm := None; d_id := uid; d_name := name;
     d_attributes := None; d_email := email; d_enabled := en;
     d_first_name := first; d_last_name := None;
     d_required_actions := None; d_credentials := None;
     d_email_verified := None |}.

Definition sample_inv (check : bool) (d : DesiredSpec) : invocation :=
  {| conn := token_conn; spec := d; aliases := []; check_mode := check;
     diff_mode := false |}.

(** The user [drstrange] as the remote side holds it. *)
Definition strange : user :=
  <["id" := VStr "23f38145"]> (<["username" := VStr "drstrange"]>
  (<["enabled" := VBool true]> (<["emailVerified" := VBool true]>
  (<["firstName" := VStr "Stephen"]>
  (<["email" := VStr "old@marvel.com"]> ∅))))).

Definition midgard : Store.store := [(VStr "master", strange)].

(** [drstrange] with an e-mail address that is not verified. *)
Definition unverified : user := <["emailVerified" := VBool false]> strange.

Definition attr_spec : DesiredSpec :=
  {| d_state := None; d_realm := None; d_id := None;
     d_name := Some "drstrange";
     d_attributes := Some {["a" := VStr "v1"]};
     d_email := None; d_enabled := None; d_first_name := None;
     d_last_name := None; d_required_actions := None;
     d_credentials := None; d_email_verified := None |}.

(** The same invocation with the keys [l] passed under alias names. *)
Definition with_aliases (l : params) (inv : invocation) : invocation :=
  {| conn := conn inv; spec := spec inv; aliases := l;
     check_mode := check_mode inv; diff_mode := diff_mode inv |}.

(** The login given under the alias keys of the shared argument spec. *)
Definition login_aliases : params :=
  [("url", VStr "https://auth.example.com/auth");
   ("username", VStr "USERNAME"); ("password", VStr "PASSWORD")].

(** Change the e-mail of [drstrange], looked up by name. *)
Definition new_email : DesiredSpec :=
  sample_spec None None (Some "drstrange") (Some "new@marvel.com") None None.

(** Remove [drstrange]. *)
Definition remove_strange : DesiredSpec :=
  sample_spec (Some absent) None (Some "drstrange") None None None.

(** An id nobody has, and no name. *)
Definition only_id : DesiredSpec :=
  sample_spec None (Some "9d59aa76") None None None None.

Definition enable_strange : DesiredSpec :=
  sample_spec None None (Some "drstrange") None None (Some true).

(** ** The properties as the design document words them *)

(** The property as the design document words it: a field is in the
    changeset exactly when it was supplied and the remote user lacks it or
    holds another value under the translated name. *)
Definition changeset_minimal (inv : invocation) (R : user) : Prop :=
  ∀ f, f ∈ user_option_names →
    let ps := effective_params inv in
    is_Some (build_changeset ps R !! remote_name f) ↔
    supplied ps f = true ∧
    (R !! remote_name f = None ∨
     ∃ old, R !! remote_name f = Some old ∧
            py_ne (params_get f ps) old = true).

(** The property as the design document words it: the first of two runs
    reports a change, the second does not, and both report the same end
    state. *)
Definition idempotent_as_worded (inv : invocation) (s : Store.store) : Prop :=
  ∀ r1 tr1 s1,
    run inv s = (ExitJson r1, tr1, s1) →
    ∃ r2 tr2 s2,
      run inv s1 = (ExitJson r2, tr2, s2) ∧
      changed r1 = true ∧ changed r2 = false ∧
      end_state r1 = end_state r2.

(** The property as the design document words it: a field the caller left
    out is not in the body sent to update, and the user read back after the
    update holds under it what it held before. *)
Definition omission_preserved (inv : invocation) (s : Store.store) : Prop :=
  ∀ f body realm,
    f ∈ user_option_names →
    supplied (effective_params inv) f = false →
    UpdateUser body realm ∈ (run inv s).1.2 →
    body !! remote_name f = None ∧
    ∀ before_user r,
      reaches inv s (Some before_user) →
      (run inv s).1.1 = ExitJson r →
      ∃ after, end_state r = Some after ∧
               after !! remote_name f = before_user !! remote_name f.

(** The property as the design document words it: a supplied name is in
    the changeset under [username], and every other parameter that has a
    value is written under the camelCase form of its own name. *)
Definition name_translation_as_worded (inv : invocation)
    (before_user : user) : Prop :=
  let ps := effective_params inv in
  let changeset := build_changeset ps before_user in
  (∀ n, d_name (spec inv) = Some n →
        changeset !! "username" = Some (VStr n)) ∧
  (∀ p, p ∈ user_params ps → p ≠ "name" →
        in_changeset ps before_user p = true →
        changeset !! camel p = Some (params_get p ps)).

(** The caller gives [enabled=true] and, apart from the id or name the
    user is looked up by, nothing else. *)
Definition only_enabled (d : DesiredSpec) : Prop :=
  d_enabled d = Some true ∧ d_attributes d = None ∧ d_email d = None ∧
  d_first_name d = None ∧ d_last_name d = None ∧
  d_required_actions d = None ∧ d_credentials d = None ∧
  d_email_verified d = None.

(** The scenario as the design document words it. *)
Definition no_op_scenario {G : Type} `{!KeycloakAPI G}
    (inv : invocation) (g : G) : Prop :=
  ∀ R, reaches inv g (Some R) →
       R !! "enabled" = Some (VBool true) →
       d_state (spec inv) ≠ Some absent →
       only_enabled (spec inv) →
       ∃ r tr g', run inv g = (ExitJson r, tr, g') ∧
                  changed r = false ∧ no_mutation tr.

(** ** Notions for the further properties *)

(** The realm a call is addressed to. *)
Definition call_realm (c : call) : value :=
  match c with
  | GetUserByName _ r | GetUserByUserid _ r | CreateUser _ r
  | UpdateUser _ r | DeleteUser _ r => r
  end.

(** The lookup of a run, read off the spec of the caller. *)
Definition expected_lookup (inv : invocation) : call :=
  match d_id (spec inv) with
  | Some i => GetUserByUserid (VStr i) (realm_of inv)
  | None => GetUserByName (opt_value VStr (d_name (spec inv))) (realm_of inv)
  end.

(** The same invocation with [module.check_mode] set to [b]. *)
Definition with_check (b : bool) (inv : invocation) : invocation :=
  {| conn := conn inv; spec := spec inv; aliases := aliases inv;
     check_mode := b; diff_mode := diff_mode inv |}.

(** The same invocation with [module._diff] set to [b]. *)
Definition with_diff (b : bool) (inv : invocation) : invocation :=
  {| conn := conn inv; spec := spec inv; aliases := aliases inv;
     check_mode := check_mode inv; diff_mode := b |}.

(** A result and an outcome with the [diff] entry blanked. *)
Definition clear_diff (r : result) : result :=
  {| changed := changed r; msg := msg r; diff := None;
     res_user := res_user r; end_state := end_state r |}.

Definition outcome_clear_diff (o : outcome) : outcome :=
  match o with
  | ExitJson r => ExitJson (clear_diff r)
  | _ => o
  end.

(** The [diff] entry of each exit, as a function of the parameters and of
    the user that was found. *)
Definition diff_of (ps : params) (before_user : user) : option (value * value) :=
  let desired_user := merge_user (build_changeset ps before_user) before_user in
  if decide (before_user = ∅) then
    Some (VStr "",
          if py_eq (params_get "state" ps) (VStr "absent") then VStr ""
          else VDict desired_user)
  else if py_eq (params_get "state" ps) (VStr "present") then
    if py_eq (VDict desired_user) (VDict before_user) then None
    else Some (VDict before_user, VDict desired_user)
  else Some (VDict before_user, VStr "").

(** A test double: a gateway that answers every call with a canned reply
    and keeps no state, for sample runs in which a call fails or a lookup
    comes back empty. *)
Module Stub.

Record stub := {
  token_reply : response string;
  by_name_reply : response (option user);
  by_id_reply : response (option user);
  writes_ok : bool;
}.

Definition write (g : stub) : response stub :=
  if writes_ok g then Reply g else Failure "503 Service Unavailable".

#[global] Instance api : KeycloakAPI stub := {|
  get_token := λ _ g, token_reply g;
  get_user_by_name := λ _ _ g, by_name_reply g;
  get_user_by_userid := λ _ _ g, by_id_reply g;
  create_user := λ _ _ g, write g;
  update_user := λ _ _ g, write g;
  delete_user := λ _ _ g, write g;
|}.

End Stub.

(** The token is refused. *)
Definition locked_out : Stub.stub :=
  {| Stub.token_reply := Failure "401 Unauthorized";
     Stub.by_name_reply := Reply None; Stub.by_id_reply := Reply None;
     Stub.writes_ok := true |}.

(** The lookups fail. *)
Definition unreachable : Stub.stub :=
  {| Stub.token_reply := Reply "Bearer";
     Stub.by_name_reply := Failure "500 Internal Server Error";
     Stub.by_id_reply := Failure "500 Internal Server Error";
     Stub.writes_ok := true |}.

(** Every lookup comes back empty and every write is accepted. *)
Definition forgetful : Stub.stub :=
  {| Stub.token_reply := Reply "Bearer";
     Stub.by_name_reply := Reply None; Stub.by_id_reply := Reply None;
     Stub.writes_ok := true |}.

(** Every lookup returns [u]; writes go through or not. *)
Definition always (u : user) (writes : bool) : Stub.stub :=
  {| Stub.token_reply := Reply "Bearer";
     Stub.by_name_reply := Reply (Some u); Stub.by_id_reply := Reply (Some u);
     Stub.writes_ok := writes |}.

(** A user without a user name, and one without an id. *)
Definition nameless : user := <["id" := VStr "23f38145"]> ∅.

Definition idless : user := <["username" := VStr "drstrange"]> ∅.

(** Neither id nor name. *)
Definition no_key : DesiredSpec :=
  sample_spec None None None None None None.

(** Whether the three login options are all given, and whether any of
    them is. *)
Definition login_complete (c : connection) : bool :=
  bool_decide (is_Some (auth_realm c)) &&
  bool_decide (is_Some (auth_username c)) &&
  bool_decide (is_Some (auth_password c)).

Definition login_started (c : connection) : bool :=
  bool_decide (is_Some (auth_realm c)) ||
  bool_decide (is_Some (auth_username c)) ||
  bool_decide (is_Some (auth_password c)).

(** The same invocation over another connection. *)
Definition with_conn (c : connection) (inv : invocation) : invocation :=
  {| conn := c; spec := spec inv; aliases := aliases inv;
     check_mode := check_mode inv; diff_mode := diff_mode inv |}.

(** A token together with a user name alone, and no credentials at all. *)
Definition half_login : connection :=
  {| auth_keycloak_url := Some "https://auth.example.com/auth";
     auth_client_id := Some "admin-cli"; auth_realm := None;
     auth_username := Some "admin"; auth_password := None;
     token := Some "TOKEN" |}.

Definition no_login : connection :=
  {| auth_keycloak_url := Some "https://auth.example.com/auth";
     auth_client_id := Some "admin-cli"; auth_realm := None;
     auth_username := None; auth_password := None; token := None |}.

(** A user that holds the two defaulted options under their option
    names, and no user name. *)
Definition bare : user :=
  <["id" := VStr "9d59aa76"]> (<["enabled" := VBool true]>
  (<["email_verified" := VBool true]> ∅)).

(** * Lemmas *)

(** ** Equality of values *)

Lemma vsize_list_elem (l : list value) (x : value) :
  x ∈ l → vsize x < vsize (VList l).
Proof.
  induction 1 as [x l|x y l _ IH]; simpl in *; lia.
Qed.

Lemma vsize_dict_elem (d : gmap string value) (k : string) (x : value) :
  d !! k = Some x → vsize x < vsize (VDict d).
Proof.
  intros Hk. simpl.
  rewrite (map_fold_delete_L _ _ k x d); [lia | | done].
  intros; lia.
Qed.

(** Induction on values with the hypothesis available for every element of a
    list and every value stored in a dict. *)
Lemma value_ind_nested (P : value → Prop) :
  P VNone →
  (∀ b, P (VBool b)) →
  (∀ z, P (VInt z)) →
  (∀ s, P (VStr s)) →
  (∀ l, Forall P l → P (VList l)) →
  (∀ d, map_Forall (λ _, P) d → P (VDict d)) →
  ∀ v, P v.
Proof.
  intros HN HB HI HS HL HD v.
  remember (vsize v) as n eqn:Hn.
  revert v Hn. induction (lt_wf n) as [n _ IH]. intros v ->.
  destruct v as [| | | |l|d]; auto.
  - apply HL, Forall_forall. intros x Hx.
    eapply IH; [|reflexivity]. by apply vsize_list_elem.
  - apply HD. intros k x Hk.
    eapply IH; [|reflexivity]. by eapply vsize_dict_elem.
Qed.

Lemma py_eq_list_refl (l : list value) :
  Forall (λ v, py_eq v v = true) l → py_eq (VList l) (VList l) = true.
Proof.
  induction 1 as [|x l Hx _ IH]; simpl in *; [done|].
  by rewrite Hx, IH.
Qed.

Lemma py_eq_dict_refl (d : gmap string value) :
  map_Forall (λ _ v, py_eq v v = true) d → py_eq (VDict d) (VDict d) = true.
Proof.
  intros Hd. simpl. rewrite bool_decide_eq_true_2 by done. simpl.
  cut (∀ m : gmap string value,
         m ⊆ d →
         map_fold (λ k v acc,
                    acc && match d !! k with
                           | Some w => py_eq v w
                           | None => false
                           end) true m = true).
  { intros H. by apply H. }
  intros m. induction m as [|k x m Hk Hfold IH] using map_first_key_ind.
  - by rewrite map_fold_empty.
  - intros Hsub. rewrite map_fold_insert_first_key by done.
    rewrite IH.
    + assert (d !! k = Some x) as ->.
      { eapply lookup_weaken; [|done]. apply lookup_insert_eq. }
      simpl. by eapply Hd, lookup_weaken; [apply lookup_insert_eq|].
    + etrans; [|done]. by apply insert_subseteq.
Qed.

(** [v == v] holds for every value of the model. *)
Lemma py_eq_refl (v : value) : py_eq v v = true.
Proof.
  induction v using value_ind_nested.
  - done.
  - simpl. by rewrite bool_decide_eq_true_2.
  - simpl. by rewrite bool_decide_eq_true_2.
  - simpl. by rewrite bool_decide_eq_true_2.
  - by apply py_eq_list_refl.
  - by apply py_eq_dict_refl.
Qed.

Lemma py_eq_str_l (s : string) (v : value) :
  py_eq (VStr s) v = true ↔ v = VStr s.
Proof.
  destruct v; simpl; try (split; [done|congruence]).
  rewrite bool_decide_eq_true. split; congruence.
Qed.

Lemma py_eq_str_r (s : string) (v : value) :
  py_eq v (VStr s) = true ↔ v = VStr s.
Proof.
  destruct v; simpl; try (split; [done|congruence]).
  rewrite bool_decide_eq_true. split; congruence.
Qed.

Lemma py_eq_none_r (v : value) : py_eq v VNone = is_none v.
Proof. by destruct v. Qed.

(** ** The parameter table, the changeset and the runs *)

Lemma changeset_step_eq ps (before_user changeset : user) param :
  changeset_step ps before_user changeset param =
  if in_changeset ps before_user param
  then <[remote_name param := params_get param ps]> changeset
  else changeset.
Proof.
  unfold changeset_step, in_changeset, remote_name.
  repeat case_decide; simplify_eq;
    rewrite ?bool_decide_eq_true_2, ?bool_decide_eq_false_2 by done;
    simpl; done.
Qed.

Lemma module_params_keys inv :
  (module_params inv).*1 = option_names ++ (alias_params inv).*1.
Proof. unfold module_params. by rewrite fmap_app. Qed.

Lemma no_alias_keys inv :
  no_alias inv → (module_params inv).*1 = option_names.
Proof.
  intros Hp. rewrite module_params_keys, Hp. apply app_nil_r.
Qed.

Lemma params_get_set x y v ps :
  params_get y (params_set x v ps) =
  if decide (x = y) then v else params_get y ps.
Proof.
  induction ps as [|[k w] ps IH]; simpl.
  - by repeat case_decide.
  - repeat (case_decide; simpl; simplify_eq); try done.
    all: rewrite IH; by rewrite ?decide_True, ?decide_False by done.
Qed.

Lemma params_set_keys x v ps : x ∈ ps.*1 → (params_set x v ps).*1 = ps.*1.
Proof.
  induction ps as [|[k w] ps IH]; simpl.
  - by intros ?%elem_of_nil.
  - intros [->|Hin]%elem_of_cons.
    + by rewrite decide_True.
    + case_decide; csimpl; [done|]. f_equal. by apply IH.
Qed.

Lemma params_get_None x ps : x ∉ ps.*1 → params_get x ps = VNone.
Proof.
  induction ps as [|[k w] ps IH]; simpl; [done|].
  intros Hx. apply not_elem_of_cons in Hx as [??].
  rewrite decide_False by done. auto.
Qed.

Lemma normalize_attributes_keys ps :
  (normalize_attributes ps).*1 = ps.*1.
Proof.
  unfold normalize_attributes.
  destruct (params_get "attributes" ps) eqn:Hget; try done.
  apply params_set_keys.
  destruct (decide ("attributes" ∈ ps.*1)) as [|Hn]; [done|].
  by rewrite params_get_None in Hget.
Qed.

Lemma normalize_attributes_get x ps :
  x ≠ "attributes" →
  params_get x (normalize_attributes ps) = params_get x ps.
Proof.
  intros Hx. unfold normalize_attributes.
  destruct (params_get "attributes" ps); try done.
  rewrite params_get_set. by rewrite decide_False.
Qed.

Lemma normalize_attributes_supplied x ps :
  supplied (normalize_attributes ps) x = supplied ps x.
Proof.
  destruct (decide (x = "attributes")) as [->|Hx].
  - unfold supplied, normalize_attributes.
    destruct (params_get "attributes" ps) eqn:Hget;
      rewrite ?Hget; try done.
    rewrite params_get_set. by rewrite decide_True.
  - unfold supplied. by rewrite normalize_attributes_get.
Qed.

Lemma user_params_effective inv :
  no_alias inv →
  user_params (effective_params inv) =
  filter (λ x, supplied (effective_params inv) x = true) user_option_names.
Proof.
  intros Hplain. unfold user_params, effective_params.
  rewrite normalize_attributes_keys, no_alias_keys by done.
  set (ps := normalize_attributes (module_params inv)).
  trans (filter (λ x, is_none (params_get x ps) = false)
           (filter (λ x, x ∉ excluded_names) option_names)).
  - rewrite list_filter_filter. apply list_filter_iff. intros x. tauto.
  - assert (filter (λ x, x ∉ excluded_names) option_names
            = user_option_names) as -> by (by vm_compute).
    apply list_filter_iff. intros x. unfold supplied.
    by destruct (is_none _).
Qed.

Lemma user_params_elem inv p :
  no_alias inv →
  p ∈ user_params (effective_params inv) ↔
  p ∈ user_option_names ∧ supplied (effective_params inv) p = true.
Proof.
  intros Hplain. rewrite user_params_effective, list_elem_of_filter by done.
  tauto.
Qed.

Lemma remote_names_NoDup : NoDup (remote_name <$> user_option_names).
Proof. by apply (bool_decide_unpack _); vm_compute. Qed.

(** No user option is written under the name of another user option. *)
Lemma remote_name_no_alias p q :
  p ∈ user_option_names → q ∈ user_option_names →
  remote_name q = p → q = p.
Proof.
  assert (Forall (λ q, Forall (λ p, remote_name q = p → q = p)
                         user_option_names) user_option_names) as H
    by (by apply (bool_decide_unpack _); vm_compute).
  intros Hp Hq. rewrite Forall_forall in H.
  specialize (H q Hq). rewrite Forall_forall in H. by apply H.
Qed.

Lemma remote_name_inj_table p q :
  p ∈ user_option_names → q ∈ user_option_names →
  remote_name p = remote_name q → p = q.
Proof.
  intros Hp Hq Heq.
  pose proof remote_names_NoDup as Hnd.
  apply list_elem_of_lookup in Hp as [i Hi].
  apply list_elem_of_lookup in Hq as [j Hj].
  assert (i = j) as ->; [|congruence].
  eapply NoDup_lookup; [done| |].
  - by rewrite list_lookup_fmap, Hi.
  - by rewrite list_lookup_fmap, Hj, Heq.
Qed.

Lemma user_params_remote_NoDup inv :
  no_alias inv →
  NoDup (remote_name <$> user_params (effective_params inv)).
Proof.
  intros Hplain. eapply sublist_NoDup; [apply remote_names_NoDup|].
  rewrite user_params_effective by done.
  apply fmap_sublist, sublist_filter.
Qed.

(** ** The changeset loop *)

Section changeset.
Context (ps : params) (before_user : user).

Local Abbreviation step := (changeset_step ps before_user).

  (** A key no parameter of the list writes keeps its entry. *)
Lemma foldl_changeset_other (l : list string) (cs : user) (k : string) :
    (∀ p, p ∈ l → in_changeset ps before_user p = true →
          remote_name p ≠ k) →
    foldl step cs l !! k = cs !! k.
  Proof.
    revert cs. induction l as [|q l IH]; intros cs Hl; simpl; [done|].
    rewrite IH.
    - rewrite changeset_step_eq.
      destruct (in_changeset ps before_user q) eqn:Hq; [|done].
      rewrite lookup_insert_ne; [done|]. apply Hl; [left|done].
    - intros p Hp. apply Hl. by right.
  Qed.

  (** A parameter the loop writes is found under its remote name with its
      new value, as long as no two parameters share a remote name. *)
Lemma foldl_changeset_written (l : list string) (cs : user) (p : string) :
    NoDup (remote_name <$> l) →
    p ∈ l → in_changeset ps before_user p = true →
    foldl step cs l !! remote_name p = Some (params_get p ps).
  Proof.
    revert cs. induction l as [|q l IH]; intros cs Hnd Hp Hin.
    - by apply elem_of_nil in Hp.
    - simpl. rewrite fmap_cons in Hnd. apply NoDup_cons in Hnd as [Hq Hnd].
      apply elem_of_cons in Hp as [->|Hp].
      + rewrite foldl_changeset_other.
        * rewrite changeset_step_eq, Hin. apply lookup_insert_eq.
        * intros p' Hp' _ Heq. apply Hq. rewrite <-Heq.
          by apply list_elem_of_fmap_2.
      + by apply IH.
  Qed.

  (** Every entry of the changeset was there before the loop or was written
      by a parameter of the list. *)
Lemma foldl_changeset_origin (l : list string) (cs : user) k v :
    foldl step cs l !! k = Some v →
    cs !! k = Some v ∨
    ∃ p, p ∈ l ∧ in_changeset ps before_user p = true ∧
         remote_name p = k ∧ v = params_get p ps.
  Proof.
    revert cs. induction l as [|q l IH]; intros cs; simpl; [by left|].
    intros [Hcs|(p & Hp & Hin & Hk & Hv)]%IH.
    - rewrite changeset_step_eq in Hcs.
      destruct (in_changeset ps before_user q) eqn:Hq; [|by left].
      apply lookup_insert_Some in Hcs as [[<- <-]|[_ Hcs]]; [|by left].
      right. exists q. split_and!; [left|done..].
    - right. exists p. split_and!; [by right|done..].
  Qed.
End changeset.

(** Every entry of a changeset was written by a parameter that has a
    value, under its remote name, whatever keys the parameters hold. *)
Lemma changeset_origin (ps : params) (before_user : user) k v :
  build_changeset ps before_user !! k = Some v →
  ∃ p, p ∈ user_params ps ∧ in_changeset ps before_user p = true ∧
       remote_name p = k ∧ v = params_get p ps.
Proof.
  unfold build_changeset.
  intros [Hempty|H]%foldl_changeset_origin; [|done].
  by rewrite lookup_empty in Hempty.
Qed.

(** The changeset of a run without alias keys, entry by entry. *)
Lemma changeset_lookup_Some inv (before_user : user) k v :
  no_alias inv →
  build_changeset (effective_params inv) before_user !! k = Some v ↔
  ∃ p, p ∈ user_params (effective_params inv) ∧
       in_changeset (effective_params inv) before_user p = true ∧
       remote_name p = k ∧ v = params_get p (effective_params inv).
Proof.
  intros Hplain. split; [apply changeset_origin|].
  intros (p & Hp & Hin & <- & ->). unfold build_changeset.
  apply foldl_changeset_written; auto using user_params_remote_NoDup.
Qed.

Lemma changeset_lookup_None (ps : params) (before_user : user) k :
  (∀ p, p ∈ user_params ps → in_changeset ps before_user p = true →
        remote_name p ≠ k) →
  build_changeset ps before_user !! k = None.
Proof.
  intros H. unfold build_changeset.
  rewrite foldl_changeset_other by done. apply lookup_empty.
Qed.

(** ** The stages of a run *)

Arguments build_changeset : simpl never.
Arguments merge_user : simpl never.
Arguments py_eq : simpl never.
Arguments module_params : simpl never.
Arguments normalize_attributes : simpl never.
Arguments params_get : simpl never.

Section run.
Context {G : Type} `{!KeycloakAPI G}.

Lemma fetch_current_reaches inv g tr fetched :
  reaches inv g fetched →
  fetch_current inv (World g tr) =
  (inl (effective_params inv, fetched),
   World g (tr ++ [lookup_call (module_params inv)])).
Proof.
  intros (Hv & [h Hh] & Hl).
  unfold valid_options in Hv. apply andb_true_iff in Hv as [Hv1 Hv2].
  unfold fetch_current, ansible_module, acquire_token, lookup, lookup_call in *.
  unfold mbind, M_bind, kc_bind, mret, M_ret, kc_ret.
  rewrite Hv1, Hv2. simpl. rewrite Hh.
  unfold kc_get_user_by_name, kc_get_user_by_userid, kc_read, logged.
  destruct (is_none (params_get "id" (module_params inv))); simpl;
    by rewrite Hl.
Qed.

(** The first stage, case by case. *)
Lemma fetch_current_spec inv (w : world G) :
  fetch_current inv w =
  if negb (forallb (together_ok (module_params inv)) required_together) then
    (inr (FailJson (MsgText (together_message (module_params inv)))), w)
  else if negb (forallb (one_of_ok (module_params inv)) required_one_of) then
    (inr (FailJson (MsgText (one_of_message (module_params inv)))), w)
  else
    match get_token (module_params inv) (remote w) with
    | Failure e => (inr (FailJson (MsgText e)), w)
    | Reply _ =>
        match lookup (module_params inv) (remote w) with
        | Reply fetched =>
            (inl (effective_params inv, fetched),
             logged (lookup_call (module_params inv)) w)
        | Failure e =>
            (inr (Raise (KeycloakError e)),
             logged (lookup_call (module_params inv)) w)
        end
    end.
Proof.
  unfold fetch_current, ansible_module, acquire_token, lookup, lookup_call.
  unfold mbind, M_bind, kc_bind, mret, M_ret, kc_ret, fail_json.
  cbv zeta.
  set (b1 := forallb (together_ok _) required_together).
  set (b2 := forallb (one_of_ok _) required_one_of).
  destruct b1, b2; simpl; try done.
  destruct (get_token _ _) as [h|e]; [|done].
  unfold kc_get_user_by_name, kc_get_user_by_userid, kc_read.
  destruct (is_none (params_get "id" (module_params inv))); simpl.
  - by destruct (get_user_by_name _ _ _).
  - by destruct (get_user_by_userid _ _ _).
Qed.

Lemma fetch_current_inl inv w ps fetched w' :
  fetch_current inv w = (inl (ps, fetched), w') →
  reaches inv (remote w) fetched ∧ ps = effective_params inv ∧
  w' = logged (lookup_call (module_params inv)) w.
Proof.
  unfold fetch_current, ansible_module, acquire_token, reaches,
    valid_options, lookup, lookup_call.
  unfold mbind, M_bind, kc_bind, mret, M_ret, kc_ret,
    fail_json.
  cbv zeta.
  set (b1 := forallb (together_ok _) required_together).
  set (b2 := forallb (one_of_ok _) required_one_of).
  destruct b1, b2; simpl; try done.
  destruct (get_token _ _) as [h|e] eqn:Hh; [|done].
  unfold kc_get_user_by_name, kc_get_user_by_userid, kc_read.
  destruct (is_none (params_get "id" (module_params inv))); simpl.
  - destruct (get_user_by_name _ _ _) as [o|e] eqn:Hl; [|done].
    intros [= <- <- <-]. split_and!; eauto.
  - destruct (get_user_by_userid _ _ _) as [o|e] eqn:Hl; [|done].
    intros [= <- <- <-]. split_and!; eauto.
Qed.

(** When the run ends before the decision it has made no mutating call and
    it has not exited normally. *)
Lemma fetch_current_inr inv w o w' :
  fetch_current inv w = (inr o, w') →
  remote w' = remote w ∧
  (trace w' = trace w ∨
   trace w' = trace w ++ [lookup_call (module_params inv)]) ∧
  ∀ r, o ≠ ExitJson r.
Proof.
  unfold fetch_current, ansible_module, acquire_token, lookup_call.
  unfold mbind, M_bind, kc_bind, mret, M_ret, kc_ret,
    fail_json.
  cbv zeta.
  set (b1 := forallb (together_ok _) required_together).
  set (b2 := forallb (one_of_ok _) required_one_of).
  destruct b1, b2; simpl; try (intros [= <- <-]; by auto).
  destruct (get_token _ _) as [h|e]; [|intros [= <- <-]; auto].
  unfold kc_get_user_by_name, kc_get_user_by_userid, kc_read.
  destruct (is_none (params_get "id" (module_params inv))); simpl.
  - destruct (get_user_by_name _ _ _) as [u|e]; [done|].
    intros [= <- <-]. simpl. auto.
  - destruct (get_user_by_userid _ _ _) as [u|e]; [done|].
    intros [= <- <-]. simpl. auto.
Qed.

Lemma main_fetched inv w ps fetched w' :
  fetch_current inv w = (inl (ps, fetched), w') →
  main inv w = reconcile inv ps fetched w'.
Proof.
  intros H. unfold main, mbind, M_bind, kc_bind. by rewrite H.
Qed.

Lemma main_stopped inv w o w' :
  fetch_current inv w = (inr o, w') → main inv w = (inr o, w').
Proof.
  intros H. unfold main, mbind, M_bind, kc_bind. by rewrite H.
Qed.

Lemma run_reaches inv g fetched :
  reaches inv g fetched →
  run inv g =
  finish (reconcile inv (effective_params inv) fetched
            (World g [lookup_call (module_params inv)])).
Proof.
  intros H. unfold run.
  by rewrite (main_fetched _ _ _ _ _ (fetch_current_reaches _ _ [] _ H)).
Qed.
End run.

Lemma effective_state inv :
  params_get "state" (effective_params inv) =
  state_value (default present (d_state (spec inv))).
Proof.
  unfold effective_params. by rewrite normalize_attributes_get.
Qed.

Lemma effective_realm inv :
  params_get "realm" (effective_params inv) =
  VStr (default "master" (d_realm (spec inv))).
Proof.
  unfold effective_params. by rewrite normalize_attributes_get.
Qed.

Lemma effective_name inv :
  params_get "name" (effective_params inv) = opt_value VStr (d_name (spec inv)).
Proof.
  unfold effective_params. by rewrite normalize_attributes_get.
Qed.

Lemma effective_id inv :
  params_get "id" (effective_params inv) = opt_value VStr (d_id (spec inv)).
Proof.
  unfold effective_params. by rewrite normalize_attributes_get.
Qed.

Lemma effective_attributes inv :
  params_get "attributes" (effective_params inv) =
  opt_value (λ d, VDict (normalize <$> d)) (d_attributes (spec inv)).
Proof.
  unfold effective_params, normalize_attributes.
  assert (params_get "attributes" (module_params inv)
          = opt_value VDict (d_attributes (spec inv))) as Hget by done.
  rewrite Hget.
  destruct (d_attributes (spec inv)) as [d|]; cbn [opt_value]; [|done].
  rewrite params_get_set. by rewrite decide_True.
Qed.

Lemma state_present_eq inv :
  d_state (spec inv) ≠ Some absent →
  params_get "state" (effective_params inv) = VStr "present".
Proof.
  rewrite effective_state. by destruct (d_state (spec inv)) as [[]|].
Qed.

Lemma state_absent_eq inv :
  d_state (spec inv) = Some absent →
  params_get "state" (effective_params inv) = VStr "absent".
Proof. rewrite effective_state. by intros ->. Qed.

Ltac kc_unfold :=
  unfold mbind, M_bind, kc_bind, mret, M_ret, kc_ret, exit_json, fail_json,
    raise, subscript, subscript_opt, kc_create_user, kc_update_user,
    kc_delete_user, kc_get_user_by_name, kc_get_user_by_userid, kc_read,
    kc_write, logged in *.

Ltac kc_simpl :=
  repeat (progress (kc_unfold; cbn [remote trace app fst snd])).

(** Case analysis on the innermost scrutinee of a run held in a
    hypothesis. *)
Ltac kc_case_hyp :=
  match goal with
  | H : context [match ?x with _ => _ end] |- _ =>
      lazymatch x with
      | context [match _ with _ => _ end] => fail
      | _ => destruct x eqn:?; cbn [remote trace fst snd] in *; simplify_eq
      end
  end.

(** ** Check mode, update calls and the cases of a run *)

Section dry_run.
Context {G : Type} `{!KeycloakAPI G}.

(** In check mode the decision stage makes no call at all, and what it
    reports is computed from the user that was fetched. *)
Lemma reconcile_check_mode inv ps fetched (w : world G) :
  check_mode inv = true →
  ∃ o, reconcile inv ps fetched w = (inr o, w) ∧
       ∀ r, o = ExitJson r →
            changed r = dry_changed ps (default ∅ fetched) ∧
            (diff_mode inv = true → changed r = true →
             diff r = Some (dry_diff ps (default ∅ fetched))).
Proof.
  intros Hc. unfold reconcile, dry_changed, dry_diff, py_ne, when_diff.
  rewrite Hc. cbv zeta.
  case_decide.
  - destruct (py_eq _ (VStr "absent")).
    { eexists; split; [done|]. intros r [= <-]. by destruct (diff_mode inv). }
    destruct (is_none _).
    { eexists; split; [done|]. by intros r [=]. }
    eexists; split; [done|]. intros r [= <-]. by destruct (diff_mode inv).
  - destruct (py_eq _ (VStr "present")).
    + destruct (py_eq (VDict _) _).
      * kc_unfold. destruct (default ∅ fetched !! "username").
        -- eexists; split; [done|]. by intros r [= <-].
        -- eexists; split; [done|]. by intros r [=].
      * eexists; split; [done|]. intros r [= <-].
        split; [by destruct (diff_mode inv)|]. by intros ->.
    + eexists; split; [done|]. intros r [= <-].
      split; [by destruct (diff_mode inv)|]. by intros ->.
Qed.

(** How the decision stage ends in check mode: it fails when a user would
    have to be created without a name, it raises when the message of the
    no-change exit cannot be built, and in every other case it exits with
    the changed flag and the diff computed from the user that was
    fetched. *)
Lemma reconcile_dry inv ps fetched (w : world G) :
  check_mode inv = true →
  let before_user := default ∅ fetched in
  let absent_asked := py_eq (params_get "state" ps) (VStr "absent") in
  let nameless := is_none (params_get "name" ps) in
  ∃ o, reconcile inv ps fetched w = (inr o, w) ∧
    (before_user = ∅ → absent_asked = false → nameless = true →
     o = FailJson
           (MsgText "name must be specified when creating a new user")) ∧
    (before_user ≠ ∅ → dry_changed ps before_user = false →
     before_user !! "username" = None →
     o = Raise (KeyError "username")) ∧
    ((before_user = ∅ → absent_asked = true ∨ nameless = false) →
     (before_user ≠ ∅ → dry_changed ps before_user = false →
      is_Some (before_user !! "username")) →
     ∃ r, o = ExitJson r ∧
          changed r = dry_changed ps before_user ∧
          diff r = if diff_mode inv then diff_of ps before_user else None).
Proof.
  intros Hc before_user absent_asked nameless.
  unfold reconcile, dry_changed, diff_of, py_ne, when_diff.
  rewrite Hc. cbv zeta. fold before_user absent_asked nameless.
  destruct (decide (before_user = ∅)) as [He|Hne].
  - destruct absent_asked.
    { eexists; split; [done|]. split_and!; [done..|].
      intros _ _. eexists. split; [done|]. by destruct (diff_mode inv). }
    destruct nameless.
    { eexists; split; [done|]. split_and!; [done..|].
      intros [?|?]; done. }
    eexists; split; [done|]. split_and!; [done..|].
    intros _ _. eexists. split; [done|]. by destruct (diff_mode inv).
  - destruct (py_eq _ (VStr "present")).
    + destruct (py_eq (VDict _) _); simpl.
      * kc_unfold. destruct (before_user !! "username") as [u|] eqn:Hu.
        -- eexists; split; [done|]. split_and!; [done..|].
           intros _ _. eexists. split; [done|]. by destruct (diff_mode inv).
        -- eexists; split; [done|]. split_and!; [done..|].
           intros _ Hs. by destruct (Hs Hne eq_refl).
      * eexists; split; [done|]. split_and!; [done..|].
        intros _ _. eexists. split; [done|]. by destruct (diff_mode inv).
    + eexists; split; [done|]. split_and!; [done..|].
      intros _ _. eexists. split; [done|]. by destruct (diff_mode inv).
Qed.
End dry_run.

Section update_call.
Context {G : Type} `{!KeycloakAPI G}.

(** An update call made by the decision stage carries the merged body, and
    is made only for a user that was found, with state present, outside
    check mode, when the merged body differs from the user. If the run then
    exits normally, the update went through, the body has an id, and the end
    state is the user read back under that id. *)
Lemma reconcile_update_call inv ps fetched (w : world G) o w' :
  reconcile inv ps fetched w = (inr o, w') →
  ∃ extra, trace w' = trace w ++ extra ∧
    ∀ body realm, UpdateUser body realm ∈ extra →
      let before_user := default ∅ fetched in
      body = merge_user (build_changeset ps before_user) before_user ∧
      realm = params_get "realm" ps ∧
      before_user ≠ ∅ ∧ check_mode inv = false ∧
      py_eq (params_get "state" ps) (VStr "present") = true ∧
      py_eq (VDict body) (VDict before_user) = false ∧
      ∀ r, o = ExitJson r →
        ∃ g1 id after,
          update_user body realm (remote w) = Reply g1 ∧
          body !! "id" = Some id ∧
          get_user_by_userid id realm g1 = Reply (Some after) ∧
          remote w' = g1 ∧ end_state r = Some after ∧ changed r = true.
Proof.
  unfold reconcile. cbv zeta. intros Hrun. kc_simpl.
  repeat kc_case_hyp.
  all: cbn [remote trace].
  all: try (exists []; split; [by rewrite (right_id_L [] (++))|];
         by intros ?? ?%elem_of_nil).
  all: rewrite <-?(assoc_L (++)); eexists; (split; [done|]).
  all: intros body realm Hin; simpl in Hin.
  all: repeat (apply elem_of_cons in Hin as [Hin|Hin]; simplify_eq/=).
  all: try by apply elem_of_nil in Hin.
  all: split_and!; try done.
  intros r [= <-]. eexists _, _, _. split_and!; try done.
  unfold when_diff. by destruct (diff_mode inv).
Qed.
End update_call.

Section run_cases.
Context {G : Type} `{!KeycloakAPI G}.

(** A run either ends before the decision, having at most looked the user
    up, or it is the decision stage run after the lookup. *)
Lemma run_inv inv (g : G) out tr g' :
  run inv g = (out, tr, g') →
  (g' = g ∧ (tr = [] ∨ tr = [lookup_call (module_params inv)]) ∧
   (∀ r, out ≠ ExitJson r) ∧ ∀ fetched, ¬ reaches inv g fetched) ∨
  (∃ fetched w',
     reaches inv g fetched ∧
     reconcile inv (effective_params inv) fetched
       (World g [lookup_call (module_params inv)]) = (inr out, w') ∧
     tr = trace w' ∧ g' = remote w').
Proof.
  unfold run.
  destruct (fetch_current inv (World g [])) as [[[ps fetched]|o] w] eqn:Hf.
  - apply fetch_current_inl in Hf as Hf'. destruct Hf' as (Hr & -> & ->).
    rewrite (main_fetched _ _ _ _ _ Hf).
    destruct (reconcile _ _ _ _) as [[[]|o] w'] eqn:Hrec.
    intros [= <- <- <-]. right. by exists fetched, w'.
  - rewrite (main_stopped _ _ _ _ Hf). intros [= <- <- <-].
    apply fetch_current_inr in Hf as Hf'. destruct Hf' as (Hg & Htr & Ho).
    left. split_and!; [done..|].
    intros fetched Hr.
    by rewrite (fetch_current_reaches _ _ [] _ Hr) in Hf.
Qed.

Lemma lookup_call_not_update ps body realm :
  UpdateUser body realm ≠ lookup_call ps.
Proof. unfold lookup_call. by destruct (is_none _). Qed.
End run_cases.

(** An update call of a run: a user was found, the body is the merged one,
    and a normal exit means the update went through and the end state is
    the user read back under the id of the body. *)
Lemma run_update_call {G : Type} `{!KeycloakAPI G} (inv : invocation)
    (g g' : G) (out : outcome) (tr : list call) (body : user) (realm : value) :
  run inv g = (out, tr, g') →
  UpdateUser body realm ∈ tr →
  ∃ before_user,
    reaches inv g (Some before_user) ∧
    body = merge_user (build_changeset (effective_params inv) before_user)
             before_user ∧
    ∀ r, out = ExitJson r →
      ∃ id after,
        update_user body realm g = Reply g' ∧
        body !! "id" = Some id ∧
        get_user_by_userid id realm g' = Reply (Some after) ∧
        end_state r = Some after.
Proof.
  intros [(_ & Htr & _)|(fetched & w' & Hr & Hrec & -> & ->)]%run_inv Hin.
  { destruct Htr as [-> | ->].
    - by apply elem_of_nil in Hin.
    - apply list_elem_of_singleton in Hin.
      by apply lookup_call_not_update in Hin. }
  apply reconcile_update_call in Hrec as (extra & Htr & Hup).
  rewrite Htr in Hin. simpl in Hin.
  apply elem_of_cons in Hin as [Hin|Hin];
    [by apply lookup_call_not_update in Hin|].
  destruct (Hup _ _ Hin) as (Hbody & _ & Hne & _ & _ & _ & Hexit).
  destruct fetched as [before_user|]; [|done]. simpl in *.
  exists before_user. split; [done|]. split; [done|].
  intros r Hr'.
  destruct (Hexit r Hr') as (g1 & id & after & Hupd & Hid & Hget & <- & He & _).
  by exists id, after.
Qed.

Lemma remote_name_table p :
  p ∈ user_option_names →
  remote_name p = if decide (p = "name") then "username" else camel p.
Proof.
  assert (Forall (λ p, remote_name p =
                       if decide (p = "name") then "username" else camel p)
            user_option_names) as H
    by (by apply (bool_decide_unpack _); vm_compute).
  rewrite Forall_forall in H. apply H.
Qed.

Lemma in_changeset_table ps (before_user : user) p :
  p ∈ user_option_names → p ≠ "name" →
  in_changeset ps before_user p =
  py_ne (params_get p ps) (default VNone (before_user !! p)).
Proof.
  intros Hp Hn. unfold in_changeset.
  rewrite bool_decide_eq_false_2 by done.
  rewrite bool_decide_eq_false_2; [done|].
  intros ->. revert Hp. by apply (bool_decide_unpack _); vm_compute.
Qed.

Lemma in_changeset_name ps (before_user : user) :
  in_changeset ps before_user "name" = true.
Proof. done. Qed.

(** An option without a value puts nothing into the changeset. *)
Lemma changeset_unsupplied (inv : invocation) (R : user) (f : string) :
  no_alias inv →
  f ∈ user_option_names →
  supplied (effective_params inv) f = false →
  build_changeset (effective_params inv) R !! remote_name f = None.
Proof.
  intros Hplain Hf Hs. apply changeset_lookup_None. intros p Hp _ Hk.
  apply user_params_elem in Hp as [Hpt Hps]; [|done].
  apply remote_name_inj_table in Hk as ->; [|done..].
  congruence.
Qed.

Ltac reaches_tac :=
  split_and!; [reflexivity | eexists; reflexivity | reflexivity].

Lemma strange_nonempty : strange ≠ ∅.
Proof.
  intros H. apply (f_equal (λ m : user, m !! "id")) in H.
  by vm_compute in H.
Defined.

Lemma effective_get inv p :
  p ≠ "attributes" →
  params_get p (effective_params inv) = params_get p (module_params inv).
Proof. apply normalize_attributes_get. Qed.

Lemma effective_email inv :
  params_get "email" (effective_params inv)
  = opt_value VStr (d_email (spec inv)).
Proof. by rewrite effective_get. Qed.

Lemma effective_enabled inv :
  params_get "enabled" (effective_params inv)
  = VBool (default true (d_enabled (spec inv))).
Proof. by rewrite effective_get. Qed.

Lemma effective_first_name inv :
  params_get "first_name" (effective_params inv)
  = opt_value VStr (d_first_name (spec inv)).
Proof. by rewrite effective_get. Qed.

Lemma effective_last_name inv :
  params_get "last_name" (effective_params inv)
  = opt_value VStr (d_last_name (spec inv)).
Proof. by rewrite effective_get. Qed.

Lemma effective_required_actions inv :
  params_get "required_actions" (effective_params inv)
  = opt_value (λ l, VList (VStr <$> l)) (d_required_actions (spec inv)).
Proof. by rewrite effective_get. Qed.

Lemma effective_credentials inv :
  params_get "credentials" (effective_params inv)
  = opt_value (λ l, VList (credential_value <$> l)) (d_credentials (spec inv)).
Proof. by rewrite effective_get. Qed.

Lemma effective_email_verified inv :
  params_get "email_verified" (effective_params inv)
  = VBool (default true (d_email_verified (spec inv))).
Proof. by rewrite effective_get. Qed.

(** Rewrite every option read from the parameters into the field of the
    spec it comes from. *)
Ltac params_rewrite :=
  rewrite ?effective_state, ?effective_realm, ?effective_id,
    ?effective_name, ?effective_attributes, ?effective_email,
    ?effective_enabled, ?effective_first_name, ?effective_last_name,
    ?effective_required_actions, ?effective_credentials,
    ?effective_email_verified in *.

(** Case analysis on a user option. *)
Ltac option_cases H :=
  repeat (apply elem_of_cons in H as [->|H]);
  [..|by apply elem_of_nil in H].

Section no_op.
Context {G : Type} `{!KeycloakAPI G}.

Lemma only_enabled_changeset inv (R : user) k v :
  no_alias inv →
  only_enabled (spec inv) →
  build_changeset (effective_params inv) R !! k = Some v →
  (k = "id" ∧ ∃ i, d_id (spec inv) = Some i ∧ v = VStr i) ∨
  (k = "username" ∧ ∃ n, d_name (spec inv) = Some n ∧ v = VStr n) ∨
  (k = "enabled" ∧ v = VBool true) ∨
  (k = "emailVerified" ∧ v = VBool true).
Proof.
  intros Hplain (He & Ha & Hm & Hf & Hl & Hq & Hc & Hv).
  intros (p & Hp & _ & <- & ->)%changeset_origin.
  apply user_params_elem in Hp as [Hp Hs]; [|done]. unfold supplied in Hs.
  option_cases Hp; params_rewrite;
    rewrite ?Ha, ?Hm, ?Hf, ?Hl, ?Hq, ?Hc, ?Hv, ?He in *; try done.
  - left. split; [done|]. destruct (d_id (spec inv)); [by eexists|done].
  - right; left. split; [done|].
    destruct (d_name (spec inv)); [by eexists|done].
  - by right; right; left.
  - by right; right; right.
Qed.

(** With [enabled] and [emailVerified] true on the remote user and the
    lookup key as the user has it, the merged body is the user itself. *)
Lemma only_enabled_merge inv (R : user) :
  no_alias inv →
  only_enabled (spec inv) →
  R !! "enabled" = Some (VBool true) →
  R !! "emailVerified" = Some (VBool true) →
  (∀ n, d_name (spec inv) = Some n → R !! "username" = Some (VStr n)) →
  (∀ i, d_id (spec inv) = Some i → R !! "id" = Some (VStr i)) →
  merge_user (build_changeset (effective_params inv) R) R = R.
Proof.
  intros Hplain Ho He Hv Hn Hi. unfold merge_user.
  apply map_subseteq_union.
  apply map_subseteq_spec. intros k v Hk.
  apply only_enabled_changeset in Hk
    as [[-> (i & Hid & ->)]|[[-> (n & Hname & ->)]|[[-> ->]|[-> ->]]]];
    auto.
Qed.
End no_op.

(** ** The reference store *)

Section store_facts.
Import Store.

Lemma find_entry_None f (s : store) :
  find_entry f s = None ↔ existsb f s = false.
Proof.
  induction s as [|e s IH]; simpl; [done|].
  destruct (f e); simpl; [split; discriminate|done].
Qed.

(** Replacing the first match by an entry that matches too: the lookup
    finds the new entry. *)
Lemma find_entry_replace_first f (r : value) (u : user) (s : store) :
  existsb f s = true → f (r, u) = true →
  find_entry f (replace_first f (r, u) s) = Some u.
Proof.
  intros Hex He'. induction s as [|e s IH]; simpl in *; [done|].
  destruct (f e) eqn:Hfe; simpl in *.
  - by rewrite He'.
  - rewrite Hfe. auto.
Qed.

Lemma find_entry_app_new f (r : value) (u : user) (s : store) :
  existsb f s = false → f (r, u) = true →
  find_entry f (s ++ [(r, u)]) = Some u.
Proof.
  intros Hex He'. induction s as [|e s IH]; simpl in *.
  - by rewrite He'.
  - destruct (f e); simpl in *; [done|auto].
Qed.

Lemma find_entry_remove_all f (s : store) :
  find_entry f (remove_all f s) = None.
Proof.
  induction s as [|e s IH]; simpl; [done|].
  destruct (f e) eqn:Hfe; simpl; [done|]. by rewrite Hfe.
Qed.

Lemma by_id_self (realm : value) (u : user) (i : value) :
  u !! "id" = Some i → by_id i realm (realm, u) = true.
Proof.
  intros Hi. unfold by_id, has_field. simpl. by rewrite Hi, !py_eq_refl.
Qed.

Lemma by_name_self (realm : value) (u : user) (n : value) :
  u !! "username" = Some n → by_name n realm (realm, u) = true.
Proof.
  intros Hn. unfold by_name, has_field. simpl. by rewrite Hn, !py_eq_refl.
Qed.

(** After an update the user read back under the id of the body is the
    body. *)
Lemma update_then_lookup (body : user) (realm id : value) (s s1 : store) :
  update body realm s = Reply s1 →
  body !! "id" = Some id →
  lookup_by_id id realm s1 = Reply (Some body).
Proof.
  unfold update, lookup_by_id. intros Hup Hid. rewrite Hid in Hup.
  destruct (existsb (by_id id realm) s) eqn:Hex; [|done].
  injection Hup as <-. f_equal.
  by rewrite find_entry_replace_first by auto using by_id_self.
Qed.
End store_facts.

(** ** A changeset computed against its own result *)

Section settled.
Context (inv : invocation) (Hplain : no_alias inv).

Local Abbreviation ps := (effective_params inv).

(** Once the changeset has been merged into the user, computing it again
    against the merged user asks for nothing the merged user does not
    already hold. *)
Lemma changeset_settled_update (before_user : user) k v :
  let desired_user := merge_user (build_changeset ps before_user) before_user in
  build_changeset ps desired_user !! k = Some v →
  desired_user !! k = Some v.
Proof.
  intros desired_user (p & Hp & Hin & <- & ->)%changeset_origin.
  apply lookup_union_Some_l, changeset_lookup_Some; [done|].
  exists p. split_and!; [done| |done..].
  apply user_params_elem in Hp as Hp'; [|done]. destruct Hp' as [Hpt _].
  destruct (decide (p = "name")) as [->|Hn]; [done|].
  rewrite in_changeset_table in Hin |- * by done.
  destruct (build_changeset ps before_user !! p) as [w|] eqn:Hcs.
  - apply changeset_origin in Hcs as (q & Hq & Hinq & Hk & _).
    apply user_params_elem in Hq as [Hqt _]; [|done].
    apply remote_name_no_alias in Hk as ->; [|done..].
    by rewrite in_changeset_table in Hinq.
  - unfold desired_user, merge_user in Hin.
    by rewrite lookup_union_r in Hin.
Qed.

(** Every option with a value is written when there is no user yet. *)
Lemma changeset_create_written p :
  p ∈ user_params ps →
  build_changeset ps ∅ !! remote_name p = Some (params_get p ps).
Proof.
  intros Hp. apply changeset_lookup_Some; [done|]. exists p.
  split_and!; [done| |done..].
  apply user_params_elem in Hp as [Hpt Hs]; [|done].
  destruct (decide (p = "name")) as [->|Hn]; [done|].
  rewrite in_changeset_table by done. rewrite lookup_empty. simpl.
  unfold py_ne. rewrite py_eq_none_r. unfold supplied in Hs.
  by destruct (is_none _).
Qed.

(** The same for a user that was just created from the changeset, with or
    without an id assigned on the way. *)
Lemma changeset_settled_create (created : user) k v :
  (∀ k v, build_changeset ps ∅ !! k = Some v → created !! k = Some v) →
  build_changeset ps created !! k = Some v →
  created !! k = Some v.
Proof.
  intros Hsub (p & Hp & _ & <- & ->)%changeset_origin.
  by apply Hsub, changeset_create_written.
Qed.
End settled.

(** ** Runs that find nothing to do *)

Section quiet_runs.
Context {G : Type} `{!KeycloakAPI G}.

Lemma lookup_call_no_mutation ps : no_mutation [lookup_call ps].
Proof.
  apply Forall_singleton. unfold lookup_call. by destruct (is_none _).
Qed.

(** The user is there, state is present and the changeset asks for nothing
    the user does not hold: the run reports no change and the user as end
    state, after the lookup alone. *)
Lemma run_settled inv (g : G) (u : user) :
  reaches inv g (Some u) →
  d_state (spec inv) ≠ Some absent →
  is_Some (u !! "username") →
  (∀ k v, build_changeset (effective_params inv) u !! k = Some v →
          u !! k = Some v) →
  ∃ r, run inv g = (ExitJson r, [lookup_call (module_params inv)], g) ∧
       changed r = false ∧ end_state r = Some u.
Proof.
  intros Hr Hs [n Hn] Hsub.
  rewrite (run_reaches _ _ _ Hr). unfold reconcile. cbv zeta.
  change (default ∅ (Some u)) with u.
  assert (merge_user (build_changeset (effective_params inv) u) u = u) as ->.
  { unfold merge_user. apply map_subseteq_union.
    by apply map_subseteq_spec. }
  rewrite decide_False by (intros ->; by rewrite lookup_empty in Hn).
  rewrite (state_present_eq _ Hs).
  assert (py_eq (VStr "present") (VStr "present") = true) as -> by done.
  rewrite py_eq_refl. kc_simpl. rewrite Hn. simpl. by eexists.
Qed.

(** Nobody is there and state is absent: nothing to do. *)
Lemma run_gone inv (g : G) fetched :
  reaches inv g fetched →
  default ∅ fetched = ∅ →
  d_state (spec inv) = Some absent →
  ∃ r, run inv g = (ExitJson r, [lookup_call (module_params inv)], g) ∧
       changed r = false ∧ end_state r = Some ∅.
Proof.
  intros Hr Hb Hs.
  rewrite (run_reaches _ _ _ Hr). unfold reconcile. cbv zeta.
  rewrite Hb, decide_True by done. rewrite (state_absent_eq _ Hs).
  assert (py_eq (VStr "absent") (VStr "absent") = true) as -> by done.
  simpl. eexists. split; [done|]. unfold when_diff.
  by destruct (diff_mode inv).
Qed.
End quiet_runs.

Section store_lookups.
Import Store.

Lemma find_entry_Some f (s : store) u :
  find_entry f s = Some u → ∃ e, e ∈ s ∧ e.2 = u ∧ f e = true.
Proof.
  induction s as [|e s IH]; simpl; [done|].
  destruct (f e) eqn:Hfe.
  - intros [= <-]. exists e. split_and!; [left|done..].
  - intros (e' & He' & Hu & Hf)%IH. exists e'. split_and!; [by right|done..].
Qed.

(** A user found by name and replaced, under its id, by a body of the same
    name is found by name again, and what is found is the body. *)
Lemma find_by_name_replace n realm i (before body : user) (s : store) :
  find_entry (by_name n realm) s = Some before →
  has_field "id" i before = true →
  has_field "username" n body = true →
  find_entry (by_name n realm)
    (replace_first (by_id i realm) (realm, body) s) = Some body.
Proof.
  intros Hfind Hid Hname. induction s as [|[r u] s IH]; simpl in *; [done|].
  destruct (by_id i realm (r, u)) eqn:Hbi; simpl.
  - unfold by_name at 1. simpl. by rewrite py_eq_refl, Hname.
  - destruct (by_name n realm (r, u)) eqn:Hbn; [|by apply IH].
    injection Hfind as ->. unfold by_id, by_name in *. simpl in *.
    apply andb_true_iff in Hbn as [Hr _]. by rewrite Hr, Hid in Hbi.
Qed.

Lemma filter_by_name_nil n realm (s : store) :
  List.filter (by_name n realm) s = [] →
  ∀ f, find_entry (by_name n realm) (remove_all f s) = None.
Proof.
  induction s as [|e s IH]; simpl; [done|].
  destruct (by_name n realm e) eqn:Hbn; [done|].
  intros Hnil f. destruct (f e); simpl; [by apply IH|].
  rewrite Hbn. by apply IH.
Qed.

(** With unambiguous names, removing the user that a name finds leaves
    nobody of that name. *)
Lemma find_by_name_remove n realm i (before : user) (s : store) :
  length (List.filter (by_name n realm) s) ≤ 1 →
  find_entry (by_name n realm) s = Some before →
  has_field "id" i before = true →
  find_entry (by_name n realm) (remove_all (by_id i realm) s) = None.
Proof.
  intros Hlen Hfind Hid. induction s as [|[r u] s IH]; simpl in *; [done|].
  destruct (by_name n realm (r, u)) eqn:Hbn; simpl in *.
  - injection Hfind as ->.
    assert (by_id i realm (r, before) = true) as ->.
    { unfold by_id, by_name in *. simpl in *.
      apply andb_true_iff in Hbn as [-> _]. by rewrite Hid. }
    apply filter_by_name_nil.
    destruct (List.filter (by_name n realm) s); [done|simpl in Hlen; lia].
  - destruct (by_id i realm (r, u)); simpl; [by apply IH|].
    rewrite Hbn. by apply IH.
Qed.

Lemma has_field_str k (s : string) (u : user) :
  has_field k (VStr s) u = true ↔ u !! k = Some (VStr s).
Proof.
  unfold has_field. destruct (u !! k) as [x|]; [|split; done].
  rewrite py_eq_str_r. split; congruence.
Qed.

Lemma has_field_self k (v : value) (u : user) :
  u !! k = Some v → has_field k v u = true.
Proof. intros Hk. unfold has_field. by rewrite Hk, py_eq_refl. Qed.
End store_lookups.

(** ** Running twice against the reference store *)

Section twice.
Import Store.

Lemma store_reaches_iff inv (s : store) fetched :
  reaches inv s fetched ↔
  valid_options inv = true ∧ fetched = store_lookup inv s.
Proof.
  unfold reaches, lookup, store_lookup, realm_of. simpl.
  unfold lookup_by_name, lookup_by_id, token_for.
  assert (params_get "id" (module_params inv)
          = opt_value VStr (d_id (spec inv))) as -> by done.
  assert (params_get "name" (module_params inv)
          = opt_value VStr (d_name (spec inv))) as -> by done.
  assert (params_get "realm" (module_params inv)
          = VStr (default "master" (d_realm (spec inv)))) as -> by done.
  destruct (d_id (spec inv)); simpl; split.
  - intros (? & _ & [= <-]). done.
  - intros [? ->]. split_and!; [done|by eexists|done].
  - intros (? & _ & [= <-]). done.
  - intros [? ->]. split_and!; [done|by eexists|done].
Qed.

(** Valid options without an id carry a name. *)
Lemma valid_options_name inv :
  valid_options inv = true → d_id (spec inv) = None →
  is_Some (d_name (spec inv)).
Proof.
  unfold valid_options. intros [_ Hone]%andb_true_iff Hid.
  unfold required_one_of in Hone. simpl in Hone.
  apply andb_true_iff in Hone as [Hone _].
  unfold one_of_ok, supplied in Hone. simpl in Hone.
  assert (params_get "id" (module_params inv)
          = opt_value VStr (d_id (spec inv))) as Hi by done.
  assert (params_get "name" (module_params inv)
          = opt_value VStr (d_name (spec inv))) as Hn by done.
  rewrite Hi, Hn, Hid in Hone. simpl in Hone.
  destruct (d_name (spec inv)); [by eexists|done].
Qed.

Lemma changeset_username inv (before_user : user) n :
  no_alias inv →
  d_name (spec inv) = Some n →
  build_changeset (effective_params inv) before_user !! "username"
  = Some (VStr n).
Proof.
  intros Hplain Hn. apply changeset_lookup_Some; [done|]. exists "name".
  split_and!; [|done|done|].
  - apply user_params_elem; [done|]. split; [compute_done|].
    unfold supplied. by rewrite effective_name, Hn.
  - by rewrite effective_name, Hn.
Qed.

(** The changeset leaves the id alone when none was given, and when the one
    given is the one the user has. *)
Lemma changeset_id_kept inv (before_user : user) :
  no_alias inv →
  (∀ i, d_id (spec inv) = Some i → before_user !! "id" = Some (VStr i)) →
  build_changeset (effective_params inv) before_user !! "id" = None.
Proof.
  intros Hplain Hid. apply changeset_lookup_None. intros p Hp Hin Hk.
  apply user_params_elem in Hp as [Hpt Hs]; [|done].
  assert (p = "id") as ->.
  { apply remote_name_inj_table; [done|compute_done|done]. }
  rewrite in_changeset_table in Hin by done.
  unfold supplied in Hs. rewrite effective_id in Hin, Hs.
  destruct (d_id (spec inv)) as [i|]; [|done].
  rewrite (Hid i eq_refl) in Hin. simpl in Hin.
  unfold py_ne in Hin. by rewrite py_eq_refl in Hin.
Qed.

(** A user found by the id of the run has that id. *)
Lemma store_lookup_id inv (s : store) before i :
  store_lookup inv s = Some before → d_id (spec inv) = Some i →
  before !! "id" = Some (VStr i).
Proof.
  unfold store_lookup. intros Hl Hi. rewrite Hi in Hl.
  apply find_entry_Some in Hl as (e & _ & <- & He).
  unfold by_id in He. apply andb_true_iff in He as [_ He].
  by apply has_field_str.
Qed.

(** After a creation the new user is the one the run finds, by name and by
    whatever the run looks users up by, and it holds all the changeset
    asked for. *)
Lemma created_then_found inv (s s1 : store) n :
  no_alias inv →
  d_name (spec inv) = Some n →
  create (build_changeset (effective_params inv) ∅) (realm_of inv) s
  = Reply s1 →
  ∃ created,
    find_entry (by_name (VStr n) (realm_of inv)) s1 = Some created ∧
    store_lookup inv s1 = Some created ∧
    created !! "username" = Some (VStr n) ∧
    ∀ k v, build_changeset (effective_params inv) ∅ !! k = Some v →
           created !! k = Some v.
Proof.
  intros Hplain Hn. unfold create.
  rewrite (changeset_username inv ∅ n Hplain Hn).
  destruct (existsb (by_name (VStr n) (realm_of inv)) s) eqn:Hex; [done|].
  set (cs := build_changeset (effective_params inv) ∅).
  assert (cs !! "username" = Some (VStr n)) as Hu
    by apply (changeset_username inv ∅ n Hplain Hn).
  destruct (cs !! "id") as [i|] eqn:Hi.
  - destruct (existsb (by_id i (realm_of inv)) s) eqn:Hexi; [done|].
    intros [= <-]. exists cs.
    assert (find_entry (by_name (VStr n) (realm_of inv))
              (s ++ [(realm_of inv, cs)]) = Some cs) as Hfind.
    { apply find_entry_app_new; [done|].
      by apply by_name_self. }
    split_and!; [done| |done..].
    unfold store_lookup. rewrite Hn. simpl.
    destruct (d_id (spec inv)) as [u|] eqn:Hid; [|done].
    assert (i = VStr u) as ->.
    { apply changeset_origin in Hi as (p & Hp & _ & Hk & ->).
      apply user_params_elem in Hp as [Hpt _]; [|done].
      assert (p = "id") as ->
          by (apply remote_name_inj_table; [done|compute_done|done]).
      by rewrite effective_id, Hid. }
    apply find_entry_app_new; [done|].
    by apply by_id_self.
  - intros [= <-]. exists (<["id" := fresh_id s]> cs).
    assert (find_entry (by_name (VStr n) (realm_of inv))
              (s ++ [(realm_of inv, <["id" := fresh_id s]> cs)])
            = Some (<["id" := fresh_id s]> cs)) as Hfind.
    { apply find_entry_app_new; [done|].
      apply by_name_self. by rewrite lookup_insert_ne. }
    split_and!; [done| | |].
    + unfold store_lookup. rewrite Hn. simpl.
      destruct (d_id (spec inv)) as [u|] eqn:Hid; [|done].
      assert (cs !! remote_name "id" = Some (params_get "id" (effective_params inv)))
        as Hcs.
      { apply changeset_create_written, user_params_elem; [done..|].
        split; [compute_done|]. unfold supplied.
        by rewrite effective_id, Hid. }
      change (remote_name "id") with "id" in Hcs. congruence.
    + by rewrite lookup_insert_ne.
    + intros k v Hk. rewrite lookup_insert_ne; [done|]. congruence.
Qed.

(** After an update the merged body is what the run finds. *)
Lemma updated_then_found inv (s s1 : store) (before : user) id :
  no_alias inv →
  valid_options inv = true →
  named s →
  store_lookup inv s = Some before →
  let desired :=
    merge_user (build_changeset (effective_params inv) before) before in
  update desired (realm_of inv) s = Reply s1 →
  desired !! "id" = Some id →
  store_lookup inv s1 = Some desired ∧ is_Some (desired !! "username").
Proof.
  intros Hplain Hv Hnamed Hl desired Hup Hid.
  assert (is_Some (desired !! "username")) as Huser.
  { unfold desired, merge_user. apply lookup_union_is_Some. right.
    assert (∃ e, e ∈ s ∧ e.2 = before) as (e & He & <-).
    { unfold store_lookup in Hl.
      destruct (d_id (spec inv));
        apply find_entry_Some in Hl as (e & ? & ? & _); eauto. }
    unfold named in Hnamed. rewrite Forall_forall in Hnamed. auto. }
  split; [|done].
  assert (before !! "id" = Some id) as Hbid.
  { unfold desired, merge_user in Hid.
    rewrite lookup_union_r in Hid; [done|].
    apply changeset_id_kept; [done|].
    intros i. by apply (store_lookup_id inv s). }
  unfold update in Hup. rewrite Hid in Hup.
  destruct (existsb (by_id id (realm_of inv)) s) eqn:Hex; [|done].
  injection Hup as <-.
  unfold store_lookup in *. destruct (d_id (spec inv)) as [u|] eqn:Hdid.
  - apply find_entry_Some in Hl as (e & _ & <- & He).
    unfold by_id in He. apply andb_true_iff in He as [_ He].
    apply has_field_str in He. rewrite He in Hbid. injection Hbid as <-.
    apply find_entry_replace_first; [done|].
    by apply by_id_self.
  - destruct (valid_options_name inv Hv Hdid) as [n Hn].
    rewrite Hn in *. simpl in *.
    apply find_by_name_replace with before; [done|by apply has_field_self|].
    apply has_field_self. unfold desired, merge_user.
    apply lookup_union_Some_l. by apply changeset_username.
Qed.

(** After a deletion the run finds nobody. *)
Lemma deleted_then_gone inv (s s1 : store) (before : user) uid :
  valid_options inv = true →
  unambiguous s →
  store_lookup inv s = Some before →
  before !! "id" = Some uid →
  delete uid (realm_of inv) s = Reply s1 →
  store_lookup inv s1 = None.
Proof.
  intros Hv Hun Hl Hid Hdel. unfold delete in Hdel.
  destruct (existsb (by_id uid (realm_of inv)) s); [|done].
  injection Hdel as <-.
  pose proof (store_lookup_id inv s before) as Hsid.
  unfold store_lookup in *. destruct (d_id (spec inv)) as [u|] eqn:Hdid.
  - rewrite (Hsid u Hl eq_refl) in Hid. injection Hid as <-.
    apply find_entry_remove_all.
  - apply find_by_name_remove with before;
      [apply Hun|done|by apply has_field_self].
Qed.

Lemma mutation_after_lookup ps (c : call) (rest : list call) :
  mutating c = true → ¬ no_mutation (lookup_call ps :: c :: rest).
Proof.
  intros Hc Hno. unfold no_mutation in Hno.
  apply Forall_cons in Hno as [_ Hno]. apply Forall_cons in Hno as [Hno _].
  congruence.
Qed.

Lemma state_absent_iff (d : option state_choice) :
  py_eq (state_value (default present d)) (VStr "absent") = true ↔
  d = Some absent.
Proof. destruct d as [[]|]; by vm_compute. Qed.

Lemma state_present_iff (d : option state_choice) :
  py_eq (state_value (default present d)) (VStr "present") = false ↔
  d = Some absent.
Proof. destruct d as [[]|]; by vm_compute. Qed.

Lemma store_lookup_nonempty inv (s : store) :
  default ∅ (store_lookup inv s) ≠ ∅ →
  ∃ before, store_lookup inv s = Some before.
Proof. destruct (store_lookup inv s); [by eexists|done]. Qed.
End twice.

(** ** Ids assigned by the reference store *)

Section fresh.
Import Store.

Lemma zeros_length n : String.length (zeros n) = n.
Proof. induction n as [|n IH]; simpl; [done|]. by rewrite IH. Qed.

Lemma id_length_bound (e : value * user) (s : store) :
  e ∈ s → id_length e ≤ foldr (λ e n, id_length e `max` n) 0 s.
Proof.
  induction 1 as [e s|e e' s _ IH]; simpl; lia.
Qed.

(** The id given to a created user is not the id of a stored one. *)
Lemma fresh_id_new (realm : value) (s : store) :
  existsb (by_id (fresh_id s) realm) s = false.
Proof.
  apply not_true_is_false. intros Hex.
  apply existsb_exists in Hex as (e & He & Hb).
  apply list_elem_of_In in He.
  unfold by_id, fresh_id in Hb. apply andb_true_iff in Hb as [_ Hb].
  apply has_field_str in Hb.
  pose proof (id_length_bound e s He) as Hle.
  unfold id_length at 1 in Hle. rewrite Hb, zeros_length in Hle. lia.
Qed.
End fresh.

(** ** The scenarios of the design document, run on the reference store *)

(** Nobody there, state absent: no change, empty end state. *)
Example scenario_absent_absent :
  ∃ r, run (sample_inv false remove_strange) ([] : Store.store)
       = (ExitJson r, [GetUserByName (VStr "drstrange") (VStr "master")], [])
       ∧ changed r = false ∧ end_state r = Some ∅.
Proof. eexists. split; [by vm_compute|done]. Qed.

(** Nobody there, state present, a name: one creation, under [username],
    and the end state has an id. *)
Example scenario_create :
  ∃ r body after,
    (run (sample_inv false new_email) ([] : Store.store)).1
    = (ExitJson r,
       [GetUserByName (VStr "drstrange") (VStr "master");
        CreateUser body (VStr "master");
        GetUserByName (VStr "drstrange") (VStr "master")])
    ∧ body !! "username" = Some (VStr "drstrange")
    ∧ changed r = true ∧ end_state r = Some after
    ∧ is_Some (after !! "id").
Proof.
  eexists _, _, _. split; [by vm_compute|]. split_and!; [done..|].
  by eexists.
Qed.

(** The user is there, state absent: deleted under its id. *)
Example scenario_delete :
  ∃ r, run (sample_inv false remove_strange) midgard
       = (ExitJson r,
          [GetUserByName (VStr "drstrange") (VStr "master");
           DeleteUser (VStr "23f38145") (VStr "master")], [])
       ∧ changed r = true ∧ end_state r = Some ∅.
Proof. eexists. split; [by vm_compute|done]. Qed.

(** A single attribute value reaches the changeset as a one-element
    list. *)
Example scenario_attributes :
  build_changeset (effective_params (sample_inv false attr_spec)) strange
    !! "attributes"
  = Some (VDict {["a" := VList [VStr "v1"]]}).
Proof. by vm_compute. Qed.

(** The first name is compared under [first_name], a key the remote user
    does not have, and so it is written even when [firstName] already
    holds it. *)
Example first_name_rewritten :
  build_changeset
    (effective_params
       (sample_inv false
          (sample_spec None None (Some "drstrange") None (Some "Stephen")
             None)))
    strange !! "firstName" = Some (VStr "Stephen")
  ∧ strange !! "firstName" = Some (VStr "Stephen").
Proof. by vm_compute. Qed.

(** * The properties of the design document *)








(** C3, as worded, fails: with [username] passed next to [name], as in the
    module's own example, it is the value under [username] that the
    changeset holds under [username], not the name. *)
Lemma name_translation_as_worded_counterexample :
  ¬ name_translation_as_worded
      (with_aliases [("username", VStr "bruce")] (sample_inv false new_email))
      strange.
Proof.
  intros [H _]. specialize (H "drstrange" eq_refl).
  by vm_compute in H.
Qed.



(** C4 (update body frame). Whenever a run calls update, a user was found
    and the body sent is that user with the changeset laid over it: every
    entry of the changeset is in the body, and under every key the
    changeset does not have the body holds what the fetched user holds
    there (nothing, if the user has no such field). *)
Theorem update_body_frame {G : Type} `{!KeycloakAPI G} (inv : invocation)
    (g g' : G) (out : outcome) (tr : list call) (body : user) (realm : value) :
  run inv g = (out, tr, g') →
  UpdateUser body realm ∈ tr →
  ∃ before_user,
    reaches inv g (Some before_user) ∧
    let changeset := build_changeset (effective_params inv) before_user in
    body = merge_user changeset before_user ∧
    (∀ k v, changeset !! k = Some v → body !! k = Some v) ∧
    (∀ k, changeset !! k = None → body !! k = before_user !! k).
Proof.
  intros Hrun Hin.
  destruct (run_update_call _ _ _ _ _ _ _ Hrun Hin)
    as (before_user & Hr & Hbody & _).
  exists before_user. split; [done|]. split; [done|].
  rewrite Hbody. unfold merge_user. split.
  - intros k v Hk. by apply lookup_union_Some_l.
  - intros k Hk. by rewrite lookup_union_r.
Qed.

(** The update that changes the e-mail of [drstrange]. *)
Lemma update_body_frame_witness :
  let inv := sample_inv false new_email in
  let body :=
    merge_user (build_changeset (effective_params inv) strange) strange in
  (run inv midgard).1.2 !! 1 = Some (UpdateUser body (VStr "master")) ∧
  ∃ before_user,
    reaches inv midgard (Some before_user) ∧
    let changeset := build_changeset (effective_params inv) before_user in
    body = merge_user changeset before_user ∧
    (∀ k v, changeset !! k = Some v → body !! k = Some v) ∧
    (∀ k, changeset !! k = None → body !! k = before_user !! k).
Proof.
  intros inv body.
  assert ((run inv midgard).1.2 !! 1 = Some (UpdateUser body (VStr "master")))
    as Hcall by (vm_compute; reflexivity).
  split; [exact Hcall|].
  apply (update_body_frame inv midgard (run inv midgard).2
           (run inv midgard).1.1 (run inv midgard).1.2 body (VStr "master")).
  - by destruct (run inv midgard) as [[??]?].
  - by apply list_elem_of_lookup_2 in Hcall.
Defined.







(** C7 (dry-run safety). In check mode the run leaves the remote state as
    it found it and none of its calls is a create, update or delete. When
    the options are valid and the token is granted, the lookup is made all
    the same and is the only call. When that lookup is answered, the run
    ends as the user it returned demands: it fails when a user would have
    to be created and no name is given, it raises when nothing has to
    change and the user has no [username] for the message, and in every
    other case it exits normally with the changed flag and the diff
    computed from that user. *)
Theorem dry_run_safety {G : Type} `{!KeycloakAPI G} (inv : invocation) (g : G) :
  check_mode inv = true →
  ∃ out tr,
    run inv g = (out, tr, g) ∧ no_mutation tr ∧
    (valid_options inv = true →
     (∃ h, get_token (module_params inv) g = Reply h) →
     tr = [lookup_call (module_params inv)]) ∧
    ∀ fetched, reaches inv g fetched →
      let ps := effective_params inv in
      let before_user := default ∅ fetched in
      (before_user = ∅ → d_state (spec inv) ≠ Some absent →
       d_name (spec inv) = None →
       out = FailJson
               (MsgText "name must be specified when creating a new user")) ∧
      (before_user ≠ ∅ → dry_changed ps before_user = false →
       before_user !! "username" = None →
       out = Raise (KeyError "username")) ∧
      ((before_user = ∅ →
        d_state (spec inv) = Some absent ∨ is_Some (d_name (spec inv))) →
       (before_user ≠ ∅ → dry_changed ps before_user = false →
        is_Some (before_user !! "username")) →
       ∃ r, out = ExitJson r ∧
            changed r = dry_changed ps before_user ∧
            diff r = if diff_mode inv then diff_of ps before_user
                     else None).
Proof.
  intros Hc. unfold run.
  destruct (fetch_current inv (World g [])) as [[[ps fetched]|o] w] eqn:Hf.
  - apply fetch_current_inl in Hf as Hf'. destruct Hf' as (Hr & -> & ->).
    rewrite (main_fetched _ _ _ _ _ Hf).
    destruct (reconcile_dry inv (effective_params inv) fetched
                (logged (lookup_call (module_params inv)) (World g [])) Hc)
      as (o & -> & Hfail & Hraise & Hexit).
    exists o, [lookup_call (module_params inv)].
    split_and!; [done| |done|].
    + apply lookup_call_no_mutation.
    + intros fetched' (_ & _ & Hl'). destruct Hr as (_ & _ & Hl).
      simpl in Hl. rewrite Hl in Hl'. injection Hl' as <-.
      rewrite effective_state, effective_name in Hfail, Hexit.
      cbv zeta. split_and!.
      * intros He Hs Hn. apply Hfail; [done| |by rewrite Hn].
        by destruct (d_state (spec inv)) as [[]|].
      * done.
      * intros Hcreate Hname. apply Hexit; [|done].
        intros He. destruct (Hcreate He) as [-> | [n ->]];
          [by left|by right].
  - rewrite (main_stopped _ _ _ _ Hf). simpl.
    apply fetch_current_inr in Hf as Hf'. destruct Hf' as (Hg & Htr & Ho).
    simpl in Hg, Htr. rewrite Hg.
    exists o, (trace w). split_and!; [done| | |].
    + destruct Htr as [->| ->]; [by apply Forall_nil|].
      apply lookup_call_no_mutation.
    + intros Hv [h Hh]. rewrite fetch_current_spec in Hf.
      unfold valid_options in Hv. apply andb_true_iff in Hv as [Hv1 Hv2].
      rewrite Hv1, Hv2 in Hf. simpl in Hf. rewrite Hh in Hf.
      destruct (lookup (module_params inv) g); [done|].
      by injection Hf as _ <-.
    + intros fetched Hr.
      by rewrite (fetch_current_reaches _ _ [] _ Hr) in Hf.
Qed.

(** A dry run of the e-mail change, with diff mode on: it exits with
    changed true and the diff from the stored user to the merged body,
    after the lookup alone. *)
Lemma dry_run_safety_witness :
  let inv := with_diff true (sample_inv true new_email) in
  let ps := effective_params inv in
  check_mode inv = true ∧
  ∃ r, run inv midgard
       = (ExitJson r, [lookup_call (module_params inv)], midgard) ∧
       changed r = true ∧
       diff r = Some (VDict strange,
                      VDict (merge_user (build_changeset ps strange)
                               strange)).
Proof.
  intros inv ps. split; [reflexivity|].
  destruct (dry_run_safety inv midgard eq_refl)
    as (out & tr & Hrun & Hno & Htr & Hin).
  destruct (Hin (Some strange)) as (_ & _ & Hexit); [reaches_tac|].
  destruct Hexit as (r & -> & Hch & Hdiff).
  - intros He. by destruct (strange_nonempty He).
  - intros _ _. by eexists.
  - exists r. rewrite Hrun, Htr; [|reflexivity|by eexists].
    split; [reflexivity|]. split.
    + rewrite Hch. by vm_compute.
    + rewrite Hdiff. by vm_compute.
Defined.

(** C8 (create validation). With no user found and state present: without
    a name the run fails with the validation message, its only call being
    the lookup; with a name, and outside check mode, the next call after
    the lookup is the creation of the merged body. *)
Theorem create_requires_name {G : Type} `{!KeycloakAPI G}
    (inv : invocation) (g : G) (fetched : option user) :
  reaches inv g fetched →
  default ∅ fetched = ∅ →
  d_state (spec inv) ≠ Some absent →
  (d_name (spec inv) = None →
   run inv g =
   (FailJson (MsgText "name must be specified when creating a new user"),
    [lookup_call (module_params inv)], g)) ∧
  (is_Some (d_name (spec inv)) → check_mode inv = false →
   ∃ out rest g',
     run inv g =
     (out,
      lookup_call (module_params inv)
      :: CreateUser (build_changeset (effective_params inv) ∅)
           (params_get "realm" (effective_params inv))
      :: rest, g')).
Proof.
  intros Hr Hb Hs.
  rewrite (run_reaches _ _ _ Hr). unfold reconcile. rewrite Hb.
  cbv zeta. rewrite decide_True by done.
  rewrite (state_present_eq _ Hs), effective_name.
  assert (merge_user (build_changeset (effective_params inv) ∅) ∅
          = build_changeset (effective_params inv) ∅) as ->.
  { unfold merge_user. apply (right_id_L ∅ (∪)). }
  split.
  - by intros ->.
  - intros [n ->] ->. simpl. kc_simpl.
    destruct (create_user _ _ g) as [g'|e]; kc_simpl; [|by eauto].
    destruct (get_user_by_name _ _ g') as [[u|]|e]; kc_simpl;
      [|by eauto..].
    destruct (u !! "username"); kc_simpl; [|by eauto].
    destruct (u !! "id"); kc_simpl; by eauto.
Qed.

(** An unknown id without a name, and a name nobody has yet. *)
Lemma create_requires_name_witness :
  run (sample_inv false only_id) midgard =
  (FailJson (MsgText "name must be specified when creating a new user"),
   [lookup_call (module_params (sample_inv false only_id))], midgard) ∧
  ∃ out rest g',
    run (sample_inv false new_email) ([] : Store.store) =
    (out,
     lookup_call (module_params (sample_inv false new_email))
     :: CreateUser
          (build_changeset (effective_params (sample_inv false new_email)) ∅)
          (params_get "realm" (effective_params (sample_inv false new_email)))
     :: rest, g').
Proof.
  split.
  - apply (create_requires_name (sample_inv false only_id) midgard None);
      [reaches_tac | reflexivity | discriminate | reflexivity].
  - apply (create_requires_name (sample_inv false new_email)
             ([] : Store.store) None);
      [reaches_tac | reflexivity | discriminate | by eexists | reflexivity].
Defined.

(** C9 (attribute normalisation round trip). A value that is not a list is
    wrapped into the one-element list and normalising that list gives the
    same result; a list is returned as it is. The loop over [attributes]
    applies this to the value under every key, and it is the normalised
    dict that the changeset computation reads. *)
Theorem normalize_round_trip (v : value) (l : list value) (inv : invocation)
    (d : gmap string value) (k : string) :
  (is_list v = false →
   normalize v = VList [v] ∧ normalize v = normalize (VList [v])) ∧
  normalize (VList l) = VList l ∧
  (d_attributes (spec inv) = Some d →
   params_get "attributes" (effective_params inv) = VDict (normalize <$> d) ∧
   (normalize <$> d) !! k = normalize <$> d !! k).
Proof.
  split_and!.
  - intros Hv. unfold normalize. by rewrite Hv.
  - done.
  - intros Hd. rewrite effective_attributes, Hd. split; [done|].
    apply lookup_fmap.
Qed.

(** The attribute [a] given as the single value [v1]. *)
Lemma normalize_round_trip_witness :
  (normalize (VStr "v1") = VList [VStr "v1"] ∧
   normalize (VStr "v1") = normalize (VList [VStr "v1"])) ∧
  (params_get "attributes" (effective_params (sample_inv false attr_spec))
   = VDict (normalize <$> {["a" := VStr "v1"]}) ∧
   (normalize <$> ({["a" := VStr "v1"]} : gmap string value)) !! "a"
   = normalize <$> ({["a" := VStr "v1"]} : gmap string value) !! "a").
Proof.
  destruct (normalize_round_trip (VStr "v1") [] (sample_inv false attr_spec)
              {["a" := VStr "v1"]} "a") as (H1 & _ & H2).
  split.
  - apply H1. reflexivity.
  - apply H2. reflexivity.
Defined.

(** C10 (check-mode creation reports no change). In check mode, with no
    user found, state present and a name given, the module exits with
    changed false and without an end state, having made the lookup only.
    The check-mode update and delete paths also exit without an end state
    but report changed true. *)
Theorem check_mode_create_unchanged {G : Type} `{!KeycloakAPI G}
    (inv : invocation) (g : G) (fetched : option user) :
  check_mode inv = true →
  reaches inv g fetched →
  let ps := effective_params inv in
  let before_user := default ∅ fetched in
  let desired_user := merge_user (build_changeset ps before_user) before_user in
  (before_user = ∅ → d_state (spec inv) ≠ Some absent →
   is_Some (d_name (spec inv)) →
   ∃ r, run inv g = (ExitJson r, [lookup_call (module_params inv)], g) ∧
        changed r = false ∧ end_state r = None) ∧
  (before_user ≠ ∅ → d_state (spec inv) ≠ Some absent →
   py_eq (VDict desired_user) (VDict before_user) = false →
   ∃ r, run inv g = (ExitJson r, [lookup_call (module_params inv)], g) ∧
        changed r = true ∧ end_state r = None) ∧
  (before_user ≠ ∅ → d_state (spec inv) = Some absent →
   ∃ r, run inv g = (ExitJson r, [lookup_call (module_params inv)], g) ∧
        changed r = true ∧ end_state r = None).
Proof.
  intros Hc Hr ps before_user desired_user.
  rewrite (run_reaches _ _ _ Hr). unfold reconcile. rewrite Hc.
  fold ps before_user. cbv zeta. fold desired_user.
  split_and!.
  - intros Hb Hs [n Hn]. rewrite decide_True by done.
    unfold ps. rewrite (state_present_eq _ Hs), effective_name, Hn.
    simpl. eexists. split; [done|]. unfold when_diff.
    by destruct (diff_mode inv).
  - intros Hb Hs Hne. rewrite decide_False by done.
    unfold ps at 1. rewrite (state_present_eq _ Hs), Hne.
    simpl. eexists. split; [done|]. unfold when_diff.
    by destruct (diff_mode inv).
  - intros Hb Hs. rewrite decide_False by done.
    unfold ps at 1. rewrite (state_absent_eq _ Hs).
    simpl. eexists. split; [done|]. unfold when_diff.
    by destruct (diff_mode inv).
Qed.

(** Dry runs of a creation, an update and a deletion. *)
Lemma check_mode_create_unchanged_witness :
  (∃ r, run (sample_inv true new_email) ([] : Store.store) =
          (ExitJson r,
           [lookup_call (module_params (sample_inv true new_email))], []) ∧
        changed r = false ∧ end_state r = None) ∧
  (∃ r, run (sample_inv true new_email) midgard =
          (ExitJson r,
           [lookup_call (module_params (sample_inv true new_email))],
           midgard) ∧
        changed r = true ∧ end_state r = None) ∧
  (∃ r, run (sample_inv true remove_strange) midgard =
          (ExitJson r,
           [lookup_call (module_params (sample_inv true remove_strange))],
           midgard) ∧
        changed r = true ∧ end_state r = None).
Proof.
  split_and!.
  - destruct (check_mode_create_unchanged (sample_inv true new_email)
                ([] : Store.store) None) as (H & _ & _);
      [reflexivity | reaches_tac |].
    apply H; [reflexivity | discriminate | by eexists].
  - destruct (check_mode_create_unchanged (sample_inv true new_email)
                midgard (Some strange)) as (_ & H & _);
      [reflexivity | reaches_tac |].
    apply H; [exact strange_nonempty | discriminate | by vm_compute].
  - destruct (check_mode_create_unchanged (sample_inv true remove_strange)
                midgard (Some strange)) as (_ & _ & H);
      [reflexivity | reaches_tac |].
    apply H; [exact strange_nonempty | reflexivity].
Defined.

(** * Further properties of [main] *)

(** ** Before the decision: options, token, lookup *)

Lemma lookup_call_expected inv :
  lookup_call (module_params inv) = expected_lookup inv.
Proof.
  unfold lookup_call, expected_lookup, realm_of.
  assert (params_get "id" (module_params inv)
          = opt_value VStr (d_id (spec inv))) as -> by done.
  assert (params_get "name" (module_params inv)
          = opt_value VStr (d_name (spec inv))) as -> by done.
  assert (params_get "realm" (module_params inv)
          = VStr (default "master" (d_realm (spec inv)))) as -> by done.
  by destruct (d_id (spec inv)).
Qed.

Section preamble.
Context {G : Type} `{!KeycloakAPI G}.

Lemma run_unfold inv (g : G) :
  run inv g =
  match fetch_current inv (World g []) with
  | (inl (ps, fetched), w) => finish (reconcile inv ps fetched w)
  | (inr o, w) => (o, trace w, remote w)
  end.
Proof.
  unfold run, main, mbind, M_bind, kc_bind.
  by destruct (fetch_current inv (World g [])) as [[[??]|?] ?].
Qed.

(** The decision stage only ever adds calls to the log. *)
Lemma reconcile_trace_grows inv ps fetched (w : world G) :
  ∃ extra, trace (reconcile inv ps fetched w).2 = trace w ++ extra.
Proof.
  destruct (reconcile inv ps fetched w) as [[[]|o] w'] eqn:Hrec.
  apply reconcile_update_call in Hrec as (extra & Htr & _). by exists extra.
Qed.
End preamble.

(** X1 (lookup strategy, lines 381-408). The first call of a run, if it
    makes any, is the lookup: by id when an id is given (whether or not a
    name is given too), by name otherwise, in the given realm or in
    [master]. A run with valid options and a token does make it. *)
Theorem lookup_comes_first {G : Type} `{!KeycloakAPI G} (inv : invocation)
    (g : G) :
  (∀ c, head (run inv g).1.2 = Some c → c = expected_lookup inv) ∧
  (valid_options inv = true →
   (∃ h, get_token (module_params inv) g = Reply h) →
   head (run inv g).1.2 = Some (expected_lookup inv)).
Proof.
  rewrite run_unfold, fetch_current_spec, <-lookup_call_expected.
  unfold valid_options.
  set (b1 := forallb (together_ok _) required_together).
  set (b2 := forallb (one_of_ok _) required_one_of).
  destruct b1, b2; simpl; try (split; [done|by intros [=]]).
  destruct (get_token _ g) as [h|e]; simpl;
    [|split; [done|by intros _ [? [=]]]].
  destruct (lookup _ g) as [fetched|e]; simpl.
  - destruct (reconcile_trace_grows inv (effective_params inv) fetched
                (logged (lookup_call (module_params inv)) (World g [])))
      as [extra Hx].
    destruct (reconcile _ _ _ _) as [[[]|o] w']. simpl in *.
    rewrite Hx. simpl. split; [by intros c [= <-]|done].
  - split; [by intros c [= <-]|done].
Qed.

(** A lookup by id although a name is given as well. *)
Lemma lookup_comes_first_witness :
  let inv :=
    sample_inv false
      (sample_spec None (Some "23f38145") (Some "drstrange") None None None) in
  head (run inv midgard).1.2
  = Some (GetUserByUserid (VStr "23f38145") (VStr "master")).
Proof.
  intros inv.
  apply (lookup_comes_first inv midgard); [reflexivity|by eexists].
Defined.

(** X2 (token failure, lines 373-377). When the token is refused the run
    ends in [fail_json] with the text of the error, and no call is made on
    the API. *)
Theorem token_refused {G : Type} `{!KeycloakAPI G} (inv : invocation)
    (g : G) (e : string) :
  valid_options inv = true →
  get_token (module_params inv) g = Failure e →
  run inv g = (FailJson (MsgText e), [], g).
Proof.
  intros Hv He. rewrite run_unfold, fetch_current_spec.
  unfold valid_options in Hv. apply andb_true_iff in Hv as [-> ->].
  simpl. by rewrite He.
Qed.

Lemma token_refused_witness :
  run (sample_inv false new_email) locked_out
  = (FailJson (MsgText "401 Unauthorized"), [], locked_out).
Proof. apply token_refused; reflexivity. Defined.

(** X3 (id or name required, lines 358-369). Without an id and without a
    name the run fails in the constructor, whatever the gateway would
    answer, a refused token included: the message is that of the first
    violated requirement, [required_together] before [required_one_of],
    and no call is made. *)
Theorem key_required {G : Type} `{!KeycloakAPI G} (inv : invocation) (g : G) :
  d_id (spec inv) = None →
  d_name (spec inv) = None →
  run inv g =
  (FailJson
     (MsgText
        (if login_started (conn inv) && negb (login_complete (conn inv))
         then "parameters are required together: auth_realm, auth_username, auth_password"
         else "one of the following is required: id, name")),
   [], g).
Proof.
  destruct inv as [[url cid r n p t] d al chk df].
  destruct d as [st rl uid nm att em en fn ln ra cr ev]. simpl.
  intros -> ->. rewrite run_unfold, fetch_current_spec.
  destruct r, n, p; vm_compute; reflexivity.
Qed.

(** Against a gateway that would refuse the token. *)
Lemma key_required_witness :
  run (sample_inv false no_key) locked_out
  = (FailJson (MsgText "one of the following is required: id, name"), [],
     locked_out).
Proof. apply (key_required (sample_inv false no_key)); reflexivity. Defined.

(** X4 (failing lookup, lines 405-408). When the lookup fails the run ends
    with that error; the lookup is its only call. *)
Theorem lookup_fails {G : Type} `{!KeycloakAPI G} (inv : invocation)
    (g : G) (e : string) :
  valid_options inv = true →
  (∃ h, get_token (module_params inv) g = Reply h) →
  lookup (module_params inv) g = Failure e →
  run inv g = (Raise (KeycloakError e), [expected_lookup inv], g).
Proof.
  intros Hv [h Hh] He. rewrite run_unfold, fetch_current_spec.
  unfold valid_options in Hv. apply andb_true_iff in Hv as [-> ->].
  simpl. by rewrite Hh, He, lookup_call_expected.
Qed.

Lemma lookup_fails_witness :
  run (sample_inv false new_email) unreachable
  = (Raise (KeycloakError "500 Internal Server Error"),
     [expected_lookup (sample_inv false new_email)], unreachable).
Proof. apply lookup_fails; [reflexivity|by eexists|reflexivity]. Defined.

(** ** The calls of the decision stage *)

Ltac decide_cases H :=
  unfold reconcile in H; cbv zeta in H; kc_simpl; repeat kc_case_hyp;
  cbn [remote trace] in *.

Section calls.
Context {G : Type} `{!KeycloakAPI G}.

(** What the decision stage adds to the log: nothing; a creation, then at
    most the lookup by name; an update, then at most the lookup under the
    id of the body; or a deletion. Each comes with the conditions under
    which the source makes it. *)
Lemma reconcile_extra inv ps fetched (w : world G) o w' :
  reconcile inv ps fetched w = (inr o, w') →
  let before_user := default ∅ fetched in
  let desired_user := merge_user (build_changeset ps before_user) before_user in
  let realm := params_get "realm" ps in
  ∃ extra, trace w' = trace w ++ extra ∧
    (extra = [] ∨
     (∃ rest, extra = CreateUser desired_user realm :: rest ∧
        (rest = [] ∨ rest = [GetUserByName (params_get "name" ps) realm]) ∧
        before_user = ∅ ∧ check_mode inv = false ∧
        py_eq (params_get "state" ps) (VStr "absent") = false ∧
        is_none (params_get "name" ps) = false) ∨
     (∃ rest, extra = UpdateUser desired_user realm :: rest ∧
        (rest = [] ∨
         ∃ id, desired_user !! "id" = Some id ∧
               rest = [GetUserByUserid id realm]) ∧
        before_user ≠ ∅ ∧ check_mode inv = false ∧
        py_eq (params_get "state" ps) (VStr "present") = true ∧
        py_eq (VDict desired_user) (VDict before_user) = false) ∨
     (∃ uid, extra = [DeleteUser uid realm] ∧
        before_user !! "id" = Some uid ∧
        before_user ≠ ∅ ∧ check_mode inv = false ∧
        py_eq (params_get "state" ps) (VStr "present") = false)).
Proof.
  intros Hrec. decide_cases Hrec.
  all: try (exists []; split; [by rewrite (right_id_L [] (++))|by left]).
  all: rewrite <-?(assoc_L (++)); eexists; (split; [done|]).
  all: try (right; left; eexists; split_and!; [done|auto..]; fail).
  all: try (right; right; left; eexists; split_and!; [done|eauto..]; fail).
  all: try (right; right; right; eexists; split_and!; [done|eauto..]; fail).
Qed.

(** The same at the level of a run. *)
Lemma run_calls inv (g g' : G) out tr :
  run inv g = (out, tr, g') →
  tr = [] ∨
  ∃ extra fetched, tr = expected_lookup inv :: extra ∧
    let ps := effective_params inv in
    let before_user := default ∅ fetched in
    let desired_user := merge_user (build_changeset ps before_user) before_user in
    (extra = [] ∨
     reaches inv g fetched ∧
     ((∃ rest, extra = CreateUser desired_user (realm_of inv) :: rest ∧
         (rest = [] ∨
          rest = [GetUserByName (opt_value VStr (d_name (spec inv)))
                    (realm_of inv)]) ∧
         before_user = ∅ ∧ check_mode inv = false ∧
         d_state (spec inv) ≠ Some absent ∧ is_Some (d_name (spec inv))) ∨
      (∃ rest, extra = UpdateUser desired_user (realm_of inv) :: rest ∧
         (rest = [] ∨
          ∃ id, desired_user !! "id" = Some id ∧
                rest = [GetUserByUserid id (realm_of inv)]) ∧
         before_user ≠ ∅ ∧ check_mode inv = false ∧
         d_state (spec inv) ≠ Some absent ∧
         py_eq (VDict desired_user) (VDict before_user) = false) ∨
      (∃ uid, extra = [DeleteUser uid (realm_of inv)] ∧
         before_user !! "id" = Some uid ∧
         before_user ≠ ∅ ∧ check_mode inv = false ∧
         d_state (spec inv) = Some absent))).
Proof.
  intros [(_ & Htr & _)|(fetched & w' & Hr & Hrec & -> & ->)]%run_inv.
  { destruct Htr as [-> | ->]; [by left|]. right.
    exists [], None. rewrite lookup_call_expected. split; [done|by left]. }
  right. apply reconcile_extra in Hrec as (extra & Htr & Hcases).
  exists extra, fetched. rewrite Htr, lookup_call_expected.
  split; [done|]. cbv zeta.
  rewrite effective_realm, effective_state, effective_name in Hcases.
  fold (realm_of inv) in Hcases.
  destruct Hcases as [->|[Hc|[Hu|Hd]]]; [by left|right; split; [done|]..].
  - left. destruct Hc as (rest & -> & Hrest & Hb & Hc & Hs & Hn).
    exists rest. split_and!; [done..| |].
    + intros Hs'. apply state_absent_iff in Hs'. congruence.
    + destruct (d_name (spec inv)); [by eexists|done].
  - right; left. destruct Hu as (rest & -> & Hrest & Hb & Hc & Hs & He).
    exists rest. split_and!; [done..| |done].
    intros Hs'. apply state_present_iff in Hs'. congruence.
  - right; right. destruct Hd as (uid & -> & Hid & Hb & Hc & Hs).
    exists uid. split_and!; [done..|]. by apply state_present_iff.
Qed.
End calls.

(** X5 (one realm, lines 335, 381, 406-511). Every call of a run is
    addressed to the realm of the invocation: the one given, or [master]. *)
Theorem one_realm {G : Type} `{!KeycloakAPI G} (inv : invocation) (g g' : G)
    (out : outcome) (tr : list call) (c : call) :
  run inv g = (out, tr, g') →
  c ∈ tr →
  call_realm c = realm_of inv.
Proof.
  intros [->|(extra & fetched & -> & Hx)]%run_calls Hc;
    [by apply elem_of_nil in Hc|].
  apply elem_of_cons in Hc as [->|Hc].
  { unfold expected_lookup. by destruct (d_id (spec inv)). }
  cbv zeta in Hx.
  destruct Hx as [->|[_ [Hx|[Hx|Hx]]]]; [by apply elem_of_nil in Hc|..].
  - destruct Hx as (rest & -> & [->| ->] & _);
      repeat (apply elem_of_cons in Hc as [->|Hc]; [done|]);
      by apply elem_of_nil in Hc.
  - destruct Hx as (rest & -> & [->|(id & _ & ->)] & _);
      repeat (apply elem_of_cons in Hc as [->|Hc]; [done|]);
      by apply elem_of_nil in Hc.
  - destruct Hx as (uid & -> & _).
    repeat (apply elem_of_cons in Hc as [->|Hc]; [done|]).
    by apply elem_of_nil in Hc.
Qed.

(** The update of [drstrange] goes to [master]. *)
Lemma one_realm_witness :
  let inv := sample_inv false new_email in
  let c :=
    UpdateUser
      (merge_user (build_changeset (effective_params inv) strange) strange)
      (VStr "master") in
  (run inv midgard).1.2 !! 1 = Some c ∧ call_realm c = realm_of inv.
Proof.
  intros inv c.
  assert ((run inv midgard).1.2 !! 1 = Some c) as Hc
    by (vm_compute; reflexivity).
  split; [exact Hc|].
  apply (one_realm inv midgard (run inv midgard).2 (run inv midgard).1.1
           (run inv midgard).1.2 c).
  - by destruct (run inv midgard) as [[??]?].
  - by apply list_elem_of_lookup_2 in Hc.
Defined.

(** X6 (one mutation per run, lines 405-520). A run makes at most three
    calls, at most one of them a create, update or delete, and never as its
    first call. *)
Theorem one_mutation {G : Type} `{!KeycloakAPI G} (inv : invocation)
    (g g' : G) (out : outcome) (tr : list call) :
  run inv g = (out, tr, g') →
  length tr ≤ 3 ∧
  length (filter (λ c, mutating c = true) tr) ≤ 1 ∧
  (∀ c, head tr = Some c → mutating c = false).
Proof.
  assert (mutating (expected_lookup inv) = false) as Hl.
  { unfold expected_lookup. by destruct (d_id (spec inv)). }
  intros [->|(extra & fetched & -> & Hx)]%run_calls;
    [split_and!; [simpl; lia..|done]|].
  cbv zeta in Hx. rewrite filter_cons_False by congruence.
  split_and!; [| |by intros c [= <-]].
  - destruct Hx as [->|[_ [Hx|[Hx|Hx]]]]; [simpl; lia|..].
    + by destruct Hx as (rest & -> & [->| ->] & _); simpl; lia.
    + by destruct Hx as (rest & -> & [->|(id & _ & ->)] & _); simpl; lia.
    + destruct Hx as (uid & -> & _). simpl. lia.
  - destruct Hx as [->|[_ [Hx|[Hx|Hx]]]]; [simpl; lia|..].
    + by destruct Hx as (rest & -> & [->| ->] & _); simpl; lia.
    + by destruct Hx as (rest & -> & [->|(id & _ & ->)] & _); simpl; lia.
    + destruct Hx as (uid & -> & _). simpl. lia.
Qed.

Lemma one_mutation_witness :
  let tr := (run (sample_inv false new_email) midgard).1.2 in
  length tr ≤ 3 ∧
  length (filter (λ c, mutating c = true) tr) ≤ 1 ∧
  (∀ c, head tr = Some c → mutating c = false).
Proof.
  intros tr.
  apply (one_mutation (sample_inv false new_email) midgard
           (run (sample_inv false new_email) midgard).2
           (run (sample_inv false new_email) midgard).1.1 tr).
  by destruct (run (sample_inv false new_email) midgard) as [[??]?].
Defined.

(** X7 (which action when, lines 431-511). A create, update or delete call
    is made outside check mode only, after a lookup that was answered, and:
    a creation only when nobody was found, state is present and a name is
    given, with the bare changeset as body; an update only when a user was
    found and state is present, with the merged body; a deletion only when
    a user was found and state is absent, under the id of the user that
    was found. *)
Theorem action_by_state {G : Type} `{!KeycloakAPI G} (inv : invocation)
    (g g' : G) (out : outcome) (tr : list call) (c : call) :
  run inv g = (out, tr, g') →
  c ∈ tr →
  mutating c = true →
  check_mode inv = false ∧
  ∃ fetched, reaches inv g fetched ∧
    match c with
    | CreateUser body _ =>
        default ∅ fetched = ∅ ∧ d_state (spec inv) ≠ Some absent ∧
        is_Some (d_name (spec inv)) ∧
        body = build_changeset (effective_params inv) ∅
    | UpdateUser body _ =>
        ∃ before_user, fetched = Some before_user ∧ before_user ≠ ∅ ∧
          d_state (spec inv) ≠ Some absent ∧
          body = merge_user
                   (build_changeset (effective_params inv) before_user)
                   before_user
    | DeleteUser uid _ =>
        ∃ before_user, fetched = Some before_user ∧
          d_state (spec inv) = Some absent ∧
          before_user !! "id" = Some uid
    | _ => False
    end.
Proof.
  assert (mutating (expected_lookup inv) = false) as Hl.
  { unfold expected_lookup. by destruct (d_id (spec inv)). }
  intros [->|(extra & fetched & -> & Hx)]%run_calls Hc Hm;
    [by apply elem_of_nil in Hc|].
  apply elem_of_cons in Hc as [->|Hc]; [congruence|].
  cbv zeta in Hx.
  destruct Hx as [->|[Hr [Hx|[Hx|Hx]]]]; [by apply elem_of_nil in Hc|..].
  - destruct Hx as (rest & -> & Hrest & Hb & Hch & Hs & Hn).
    split; [done|]. exists fetched. split; [done|].
    apply elem_of_cons in Hc as [->|Hc].
    + split_and!; [done..|]. rewrite Hb. unfold merge_user.
      apply (right_id_L ∅ (∪)).
    + destruct Hrest as [-> | ->]; [by apply elem_of_nil in Hc|].
      apply list_elem_of_singleton in Hc as ->. done.
  - destruct Hx as (rest & -> & Hrest & Hb & Hch & Hs & Hne).
    split; [done|]. exists fetched. split; [done|].
    destruct fetched as [before_user|]; [|done].
    apply elem_of_cons in Hc as [->|Hc].
    + by exists before_user.
    + destruct Hrest as [->|(id & _ & ->)]; [by apply elem_of_nil in Hc|].
      apply list_elem_of_singleton in Hc as ->. done.
  - destruct Hx as (uid & -> & Hid & Hb & Hch & Hs).
    split; [done|]. exists fetched. split; [done|].
    destruct fetched as [before_user|]; [|done].
    apply list_elem_of_singleton in Hc as ->. by exists before_user.
Qed.

(** The deletion of [drstrange] is under the id the store holds. *)
Lemma action_by_state_witness :
  let inv := sample_inv false remove_strange in
  check_mode inv = false ∧
  ∃ fetched, reaches inv midgard fetched ∧
    ∃ before_user, fetched = Some before_user ∧
      d_state (spec inv) = Some absent ∧
      before_user !! "id" = Some (VStr "23f38145").
Proof.
  intros inv.
  assert ((run inv midgard).1.2 !! 1
          = Some (DeleteUser (VStr "23f38145") (VStr "master"))) as Hc
    by (vm_compute; reflexivity).
  apply (action_by_state inv midgard (run inv midgard).2
           (run inv midgard).1.1 (run inv midgard).1.2
           (DeleteUser (VStr "23f38145") (VStr "master"))).
  - by destruct (run inv midgard) as [[??]?].
  - by apply list_elem_of_lookup_2 in Hc.
  - reflexivity.
Defined.

(** ** What a normal exit reports *)

(** X8 (the changed flag tells the truth, lines 431-520). Outside check
    mode, whatever the gateway, a run that exits normally reports changed
    true exactly when it made a create, update or delete call. *)
Theorem changed_iff_mutation {G : Type} `{!KeycloakAPI G} (inv : invocation)
    (g g' : G) (r : result) (tr : list call) :
  check_mode inv = false →
  run inv g = (ExitJson r, tr, g') →
  (changed r = true ↔ ¬ no_mutation tr).
Proof.
  intros Hc
    [(_ & _ & Hno & _)|(fetched & w' & Hr & Hrec & -> & ->)]%run_inv;
    [by destruct (Hno r)|].
  unfold reconcile in Hrec. rewrite Hc in Hrec. decide_cases Hrec.
  all: cbn [app changed set_msg set_end_state set_changed]; unfold when_diff.
  all: destruct (diff_mode inv); cbn [changed set_diff initial_result].
  all: try (split; [done|intros Hm; destruct Hm;
                           apply lookup_call_no_mutation]).
  all: split; [intros _; by apply mutation_after_lookup|done].
Qed.

Lemma changed_iff_mutation_witness :
  let inv := sample_inv false new_email in
  ∃ r tr g',
    run inv midgard = (ExitJson r, tr, g') ∧
    (changed r = true ↔ ¬ no_mutation tr).
Proof.
  intros inv.
  assert (∃ r tr g', run inv midgard = (ExitJson r, tr, g'))
    as (r & tr & g' & Hrun).
  { eexists _, _, _. vm_compute. reflexivity. }
  exists r, tr, g'. split; [exact Hrun|].
  apply (changed_iff_mutation inv midgard g' r tr); [reflexivity|exact Hrun].
Defined.

Section dry_and_real.
Context {G : Type} `{!KeycloakAPI G}.

(** The decision stage in check mode, against the same stage outside check
    mode: whenever the real one exits normally so does the dry one, without
    a call, and with the same changed flag unless the real one created the
    user. *)
Lemma reconcile_dry_agrees inv ps fetched (w : world G) r w' :
  reconcile (with_check false inv) ps fetched w = (inr (ExitJson r), w') →
  ∃ r' extra,
    reconcile (with_check true inv) ps fetched w = (inr (ExitJson r'), w) ∧
    trace w' = trace w ++ extra ∧
    ((changed r' = changed r ∧ ∀ body realm, CreateUser body realm ∉ extra) ∨
     (changed r' = false ∧ changed r = true ∧
      ∃ body realm rest, extra = CreateUser body realm :: rest)).
Proof.
  intros Hrec. unfold reconcile, when_diff in *.
  cbn [check_mode diff_mode with_check] in *. cbv zeta in *.
  kc_simpl. repeat kc_case_hyp. all: cbn [remote trace] in *.
  all: eexists _, _; split; [done|];
    (split; [first [reflexivity
                   |symmetry; apply app_nil_r
                   |rewrite <-(assoc_L (++)); reflexivity]|]).
  all: try (left; split; [by destruct (diff_mode inv)|];
            intros body realm Hin;
            repeat (apply elem_of_cons in Hin as [Hin|Hin]; [done|]);
            by apply elem_of_nil in Hin).
  right. split_and!; [by destruct (diff_mode inv)..|].
  by eexists _, _, _.
Qed.
End dry_and_real.

(** X9 (check mode predicts the changed flag, lines 450-451, 485-486,
    506-507). If the run outside check mode exits normally, the run in
    check mode on the same remote state exits normally too, after the
    lookup alone. When the real run makes no create call the two report
    the same changed flag; when the real run creates the user it reports
    changed true and the dry run reports changed false. *)
Theorem check_mode_predicts {G : Type} `{!KeycloakAPI G} (inv : invocation)
    (g g' : G) (r : result) (tr : list call) :
  run (with_check false inv) g = (ExitJson r, tr, g') →
  ∃ r', run (with_check true inv) g = (ExitJson r', [expected_lookup inv], g) ∧
        (((∀ body realm, CreateUser body realm ∉ tr) ∧
          changed r' = changed r) ∨
         ((∃ body realm rest,
             tr = expected_lookup inv :: CreateUser body realm :: rest) ∧
          changed r = true ∧ changed r' = false)).
Proof.
  intros [(_ & _ & Hno & _)|(fetched & w' & Hr & Hrec & -> & ->)]%run_inv;
    [by destruct (Hno r)|].
  change (effective_params (with_check false inv))
    with (effective_params inv) in Hrec.
  change (module_params (with_check false inv))
    with (module_params inv) in Hrec.
  assert (reaches (with_check true inv) g fetched) as Hr' by exact Hr.
  rewrite (run_reaches _ _ _ Hr').
  change (effective_params (with_check true inv))
    with (effective_params inv).
  change (module_params (with_check true inv)) with (module_params inv).
  apply reconcile_dry_agrees in Hrec as (r' & extra & Hdry & Htr & Hch).
  rewrite Hdry. simpl in *. rewrite lookup_call_expected in *.
  exists r'. split; [done|]. rewrite Htr.
  destruct Hch as [[Hch Hnone]|(Hf & Ht & body & realm & rest & ->)].
  - left. split; [|done]. intros body realm Hin.
    apply elem_of_cons in Hin as [Hin|Hin]; [|by apply (Hnone body realm)].
    unfold expected_lookup in Hin. by destruct (d_id (spec inv)).
  - right. split_and!; [|done..]. by exists body, realm, rest.
Qed.

(** The e-mail change for [drstrange]: a creation in an empty store, an
    update in a store that has the user. *)
Lemma check_mode_predicts_witness :
  let inv := sample_inv false new_email in
  (∃ r r',
     (run (with_check false inv) ([] : Store.store)).1.1 = ExitJson r ∧
     run (with_check true inv) ([] : Store.store)
     = (ExitJson r', [expected_lookup inv], []) ∧
     changed r = true ∧ changed r' = false) ∧
  (∃ r r',
     (run (with_check false inv) midgard).1.1 = ExitJson r ∧
     run (with_check true inv) midgard
     = (ExitJson r', [expected_lookup inv], midgard) ∧
     changed r' = changed r).
Proof.
  intros inv. split.
  - assert (∃ r tr g', run (with_check false inv) ([] : Store.store)
                       = (ExitJson r, tr, g') ∧
                       ∃ body realm, CreateUser body realm ∈ tr)
      as (r & tr & g' & Hrun & body & realm & Hin).
    { eexists _, _, _. split; [vm_compute; reflexivity|].
      eexists _, _. apply list_elem_of_lookup_2 with 1. reflexivity. }
    destruct (check_mode_predicts inv [] g' r tr Hrun)
      as (r' & Hdry & [[Hnone _]|(_ & Ht & Hf)]).
    + by destruct (Hnone body realm).
    + exists r, r'. rewrite Hrun. by split_and!.
  - assert (∃ r tr g', run (with_check false inv) midgard
                       = (ExitJson r, tr, g') ∧
                       ∀ body realm rest,
                         tr ≠ expected_lookup inv :: CreateUser body realm
                                :: rest)
      as (r & tr & g' & Hrun & Hnot).
    { eexists _, _, _. split; [vm_compute; reflexivity|]. done. }
    destruct (check_mode_predicts inv midgard g' r tr Hrun)
      as (r' & Hdry & [[_ Hch]|((body & realm & rest & Htr) & _)]).
    + exists r, r'. rewrite Hrun. by split_and!.
    + by destruct (Hnot body realm rest).
Defined.

Section diff_entry.
Context {G : Type} `{!KeycloakAPI G}.

(** The decision stage with and without diff mode: the same calls, the
    same remote state, and the same outcome once the [diff] entry is
    blanked; without diff mode the entry stays empty. *)
Lemma reconcile_diff_blind inv ps fetched (w : world G) b o1 w1 o2 w2 :
  reconcile (with_diff b inv) ps fetched w = (inr o1, w1) →
  reconcile (with_diff false inv) ps fetched w = (inr o2, w2) →
  w1 = w2 ∧ outcome_clear_diff o1 = outcome_clear_diff o2 ∧
  ∀ r, o2 = ExitJson r → diff r = None.
Proof.
  intros H1 H2. unfold reconcile, when_diff in *.
  cbn [check_mode diff_mode with_diff] in *. cbv zeta in *.
  kc_simpl. repeat kc_case_hyp.
  all: destruct b; split_and!; try done.
  all: intros r Hr; injection Hr as <-; reflexivity.
Qed.

(** What the [diff] entry of a normal exit holds. *)
Lemma reconcile_diff_entry inv ps fetched (w : world G) r w' :
  reconcile inv ps fetched w = (inr (ExitJson r), w') →
  diff r = if diff_mode inv then diff_of ps (default ∅ fetched) else None.
Proof.
  intros Hrec. unfold diff_of. cbv zeta.
  unfold reconcile, when_diff in Hrec. cbv zeta in Hrec.
  kc_simpl. repeat kc_case_hyp.
  all: cbn [diff set_msg set_end_state set_changed set_diff initial_result].
  all: by destruct (diff_mode inv).
Qed.

(** The [user] entry follows [end_state], and only a check-mode exit lacks
    the end state. *)
Lemma reconcile_user_entry inv ps fetched (w : world G) r w' :
  reconcile inv ps fetched w = (inr (ExitJson r), w') →
  res_user r = match end_state r with
               | Some u => VDict u
               | None => VStr ""
               end ∧
  (end_state r = None → check_mode inv = true) ∧
  (check_mode inv = true → changed r = true → end_state r = None).
Proof.
  intros Hrec. unfold reconcile, when_diff in Hrec. cbv zeta in Hrec.
  kc_simpl. repeat kc_case_hyp.
  all: destruct (diff_mode inv).
  all: cbn [res_user end_state changed set_msg set_end_state set_changed
              set_diff initial_result].
  all: split_and!; done.
Qed.
End diff_entry.

(** X10 (diff mode changes the diff entry only, lines 434-435, 447-448,
    482-483, 503-504). With diff mode on or off a run makes the same
    calls, leaves the same remote state and ends the same way, up to the
    [diff] entry of the result; with diff mode off that entry is empty. *)
Theorem diff_mode_only_diff {G : Type} `{!KeycloakAPI G} (inv : invocation)
    (g : G) (b : bool) :
  let x := run (with_diff b inv) g in
  let y := run (with_diff false inv) g in
  x.1.2 = y.1.2 ∧ x.2 = y.2 ∧
  outcome_clear_diff x.1.1 = outcome_clear_diff y.1.1 ∧
  ∀ r, y.1.1 = ExitJson r → diff r = None.
Proof.
  intros x y. unfold x, y. rewrite !run_unfold.
  change (fetch_current (with_diff b inv) (World g []))
    with (fetch_current (with_diff false inv) (World g [])).
  destruct (fetch_current (with_diff false inv) (World g []))
    as [[[ps fetched]|o] w] eqn:Hf.
  2: { apply fetch_current_inr in Hf as (_ & _ & Hno).
       split_and!; [done..|]. intros r Hr. by destruct (Hno r). }
  destruct (reconcile (with_diff b inv) ps fetched w)
    as [[[]|o1] w1] eqn:H1.
  destruct (reconcile (with_diff false inv) ps fetched w)
    as [[[]|o2] w2] eqn:H2.
  destruct (reconcile_diff_blind _ _ _ _ _ _ _ _ _ H1 H2) as (-> & Ho & Hd).
  simpl. by split_and!.
Qed.

(** X11 (the diff entry, lines 371, 434-435, 447-448, 482-483, 503-504).
    A normal exit carries: no diff without diff mode, and none when nothing
    has to change; otherwise the empty string or the user found as
    [before], and the merged body, or the empty string when state is
    absent, as [after]. *)
Theorem diff_reported {G : Type} `{!KeycloakAPI G} (inv : invocation)
    (g g' : G) (fetched : option user) (r : result) (tr : list call) :
  reaches inv g fetched →
  run inv g = (ExitJson r, tr, g') →
  diff r = if diff_mode inv
           then diff_of (effective_params inv) (default ∅ fetched)
           else None.
Proof.
  intros Hr Hrun. rewrite (run_reaches _ _ _ Hr) in Hrun.
  destruct (reconcile _ _ _ _) as [[[]|o] w'] eqn:Hrec.
  simpl in Hrun. injection Hrun as -> _ _.
  by apply reconcile_diff_entry in Hrec.
Qed.

Lemma diff_reported_witness :
  let inv := with_diff true (sample_inv false new_email) in
  ∃ r tr g',
    run inv midgard = (ExitJson r, tr, g') ∧
    diff r = if diff_mode inv
             then diff_of (effective_params inv) (default ∅ (Some strange))
             else None.
Proof.
  intros inv.
  assert (∃ r tr g', run inv midgard = (ExitJson r, tr, g'))
    as (r & tr & g' & Hrun).
  { eexists _, _, _. vm_compute. reflexivity. }
  exists r, tr, g'. split; [exact Hrun|].
  apply (diff_reported inv midgard g' (Some strange) r tr);
    [reaches_tac|exact Hrun].
Defined.

(** X12 (the user entry, lines 371, 437-438, 456-457, 472-473, 493-494,
    513-514). In every normal exit the deprecated [user] entry is the end
    state, or the empty string when there is none; the end state is
    missing only in check mode, and is missing in every check-mode exit
    that reports a change. *)
Theorem user_mirrors_end_state {G : Type} `{!KeycloakAPI G}
    (inv : invocation) (g g' : G) (r : result) (tr : list call) :
  run inv g = (ExitJson r, tr, g') →
  res_user r = match end_state r with
               | Some u => VDict u
               | None => VStr ""
               end ∧
  (end_state r = None → check_mode inv = true) ∧
  (check_mode inv = true → changed r = true → end_state r = None).
Proof.
  intros [(_ & _ & Hno & _)|(fetched & w' & Hr & Hrec & -> & ->)]%run_inv;
    [by destruct (Hno r)|].
  by apply reconcile_user_entry in Hrec.
Qed.

Lemma user_mirrors_end_state_witness :
  let inv := sample_inv true new_email in
  ∃ r tr g',
    run inv midgard = (ExitJson r, tr, g') ∧
    res_user r = match end_state r with
                 | Some u => VDict u
                 | None => VStr ""
                 end ∧
    (end_state r = None → check_mode inv = true) ∧
    (check_mode inv = true → changed r = true → end_state r = None).
Proof.
  intros inv.
  assert (∃ r tr g', run inv midgard = (ExitJson r, tr, g'))
    as (r & tr & g' & Hrun).
  { eexists _, _, _. vm_compute. reflexivity. }
  exists r, tr, g'. split; [exact Hrun|].
  by apply (user_mirrors_end_state inv midgard g' r tr).
Defined.

(** ** The body of a creation *)

Section create_call.
Context {G : Type} `{!KeycloakAPI G}.

Lemma run_create_call inv (g g' : G) out tr body realm :
  run inv g = (out, tr, g') →
  CreateUser body realm ∈ tr →
  body = build_changeset (effective_params inv) ∅ ∧
  is_Some (d_name (spec inv)).
Proof.
  intros [->|(extra & fetched & -> & Hx)]%run_calls Hc;
    [by apply elem_of_nil in Hc|].
  apply elem_of_cons in Hc as [Hc|Hc].
  { unfold expected_lookup in Hc. by destruct (d_id (spec inv)). }
  cbv zeta in Hx.
  destruct Hx as [->|[_ [Hx|[Hx|Hx]]]]; [by apply elem_of_nil in Hc|..].
  - destruct Hx as (rest & -> & Hrest & Hb & _ & _ & Hn).
    apply elem_of_cons in Hc as [[= -> _]|Hc].
    + split; [|done]. rewrite Hb. unfold merge_user.
      apply (right_id_L ∅ (∪)).
    + destruct Hrest as [-> | ->]; [by apply elem_of_nil in Hc|].
      by apply list_elem_of_singleton in Hc.
  - destruct Hx as (rest & -> & [->|(id & _ & ->)] & _);
      repeat (apply elem_of_cons in Hc as [Hc|Hc]; [done|]);
      by apply elem_of_nil in Hc.
  - destruct Hx as (uid & -> & _).
    repeat (apply elem_of_cons in Hc as [Hc|Hc]; [done|]).
    by apply elem_of_nil in Hc.
Qed.
End create_call.

(** A key that the loop has written stays a key of the changeset. *)
Lemma foldl_changeset_key ps (before_user : user) (l : list string)
    (cs : user) (k : string) :
  is_Some (cs !! k) →
  is_Some (foldl (changeset_step ps before_user) cs l !! k).
Proof.
  revert cs. induction l as [|q l IH]; intros cs Hk; simpl; [done|].
  apply IH. rewrite changeset_step_eq.
  destruct (in_changeset ps before_user q); [|done].
  destruct (decide (remote_name q = k)) as [<-|Hne].
  - rewrite lookup_insert_eq. by eexists.
  - by rewrite lookup_insert_ne.
Qed.

Lemma foldl_changeset_key_written ps (before_user : user) (l : list string)
    (cs : user) (p : string) :
  p ∈ l → in_changeset ps before_user p = true →
  is_Some (foldl (changeset_step ps before_user) cs l !! remote_name p).
Proof.
  revert cs. induction l as [|q l IH]; intros cs Hp Hin.
  - by apply elem_of_nil in Hp.
  - simpl. apply elem_of_cons in Hp as [->|Hp]; [|by apply IH].
    apply foldl_changeset_key. rewrite changeset_step_eq, Hin.
    rewrite lookup_insert_eq. by eexists.
Qed.

(** With nobody found, every parameter that has a value is written. *)
Lemma in_changeset_empty ps p :
  p ∈ user_params ps → in_changeset ps ∅ p = true.
Proof.
  unfold user_params. intros [[_ Hv] _]%list_elem_of_filter.
  unfold in_changeset. rewrite lookup_empty. simpl.
  unfold py_ne. rewrite py_eq_none_r, Hv. apply orb_true_r.
Qed.

(** A user option that has a value is one of the parameters the loop
    walks, whatever alias keys there are besides. *)
Lemma user_params_option inv p :
  p ∈ user_option_names →
  supplied (effective_params inv) p = true →
  p ∈ user_params (effective_params inv).
Proof.
  intros Hp Hs.
  assert (Forall (λ p, (p ∉ excluded_names) ∧ (p ∈ option_names))
            user_option_names) as H
    by (by apply (bool_decide_unpack _); vm_compute).
  rewrite Forall_forall in H. destruct (H p Hp) as [Hx Ho].
  unfold user_params. apply list_elem_of_filter. split_and!; [done| |].
  - unfold supplied in Hs. by destruct (is_none _).
  - unfold effective_params.
    rewrite normalize_attributes_keys, module_params_keys.
    apply elem_of_app. by left.
Qed.



(** ** The exits after a create, update or delete *)

Section exits.
Context {G : Type} `{!KeycloakAPI G}.

(** A normal exit outside check mode is one of five: nobody there and
    nothing to do; nothing to change; created and read back by name;
    updated and read back under the id of the body; deleted under the id
    of the user found. *)
Lemma reconcile_exit_facts inv ps fetched (w : world G) r w' :
  check_mode inv = false →
  reconcile inv ps fetched w = (inr (ExitJson r), w') →
  let before_user := default ∅ fetched in
  let desired_user := merge_user (build_changeset ps before_user) before_user in
  let realm := params_get "realm" ps in
  let name := params_get "name" ps in
  (w' = w ∧ changed r = false ∧ before_user = ∅ ∧ end_state r = Some ∅ ∧
   msg r = MsgText "user does not exist; doing nothing.") ∨
  (w' = w ∧ changed r = false ∧ before_user ≠ ∅ ∧
   end_state r = Some desired_user ∧
   ∃ u, before_user !! "username" = Some u ∧
        msg r = MsgFormat "No changes required to user {name}."
                  [("name", u)]) ∨
  (∃ after u i,
     trace w' = trace w ++ [CreateUser desired_user realm;
                            GetUserByName name realm] ∧
     create_user desired_user realm (remote w) = Reply (remote w') ∧
     get_user_by_name name realm (remote w') = Reply (Some after) ∧
     after !! "username" = Some u ∧ after !! "id" = Some i ∧
     end_state r = Some after ∧ changed r = true ∧
     msg r = MsgFormat "user {name} has been created with ID {id}"
               [("name", u); ("id", i)]) ∨
  (∃ after id i,
     trace w' = trace w ++ [UpdateUser desired_user realm;
                            GetUserByUserid id realm] ∧
     update_user desired_user realm (remote w) = Reply (remote w') ∧
     desired_user !! "id" = Some id ∧
     get_user_by_userid id realm (remote w') = Reply (Some after) ∧
     after !! "id" = Some i ∧
     end_state r = Some after ∧ changed r = true ∧
     msg r = MsgFormat "user {id} has been updated" [("id", i)]) ∨
  (∃ uid u,
     trace w' = trace w ++ [DeleteUser uid realm] ∧
     before_user !! "id" = Some uid ∧
     delete_user uid realm (remote w) = Reply (remote w') ∧
     before_user !! "username" = Some u ∧
     end_state r = Some ∅ ∧ changed r = true ∧
     msg r = MsgFormat "user {name} has been deleted" [("name", u)]).
Proof.
  intros Hc Hrec. unfold reconcile, when_diff in Hrec. rewrite Hc in Hrec.
  cbv zeta in *. kc_simpl. repeat kc_case_hyp.
  all: cbn [remote trace] in *.
  - left. by destruct (diff_mode inv).
  - right; right; left. eexists _, _, _.
    rewrite <-(assoc_L (++)). by destruct (diff_mode inv).
  - right; left. split_and!; [done..|]. by eexists.
  - right; right; right; left. eexists _, _, _.
    rewrite <-(assoc_L (++)). by destruct (diff_mode inv).
  - right; right; right; right. eexists _, _.
    by destruct (diff_mode inv).
Qed.

(** The same for a run. *)
Lemma run_exit_facts inv (g g' : G) r tr :
  check_mode inv = false →
  run inv g = (ExitJson r, tr, g') →
  ∃ fetched, reaches inv g fetched ∧
    let ps := effective_params inv in
    let before_user := default ∅ fetched in
    let desired_user := merge_user (build_changeset ps before_user) before_user in
    let realm := realm_of inv in
    let name := opt_value VStr (d_name (spec inv)) in
    (tr = [expected_lookup inv] ∧ g' = g ∧ changed r = false ∧
     before_user = ∅ ∧ end_state r = Some ∅ ∧
     msg r = MsgText "user does not exist; doing nothing.") ∨
    (tr = [expected_lookup inv] ∧ g' = g ∧ changed r = false ∧
     before_user ≠ ∅ ∧ end_state r = Some desired_user ∧
     ∃ u, before_user !! "username" = Some u ∧
          msg r = MsgFormat "No changes required to user {name}."
                    [("name", u)]) ∨
    (∃ after u i,
       tr = [expected_lookup inv; CreateUser desired_user realm;
             GetUserByName name realm] ∧
       create_user desired_user realm g = Reply g' ∧
       get_user_by_name name realm g' = Reply (Some after) ∧
       after !! "username" = Some u ∧ after !! "id" = Some i ∧
       end_state r = Some after ∧ changed r = true ∧
       msg r = MsgFormat "user {name} has been created with ID {id}"
                 [("name", u); ("id", i)]) ∨
    (∃ after id i,
       tr = [expected_lookup inv; UpdateUser desired_user realm;
             GetUserByUserid id realm] ∧
       update_user desired_user realm g = Reply g' ∧
       desired_user !! "id" = Some id ∧
       get_user_by_userid id realm g' = Reply (Some after) ∧
       after !! "id" = Some i ∧
       end_state r = Some after ∧ changed r = true ∧
       msg r = MsgFormat "user {id} has been updated" [("id", i)]) ∨
    (∃ uid u,
       tr = [expected_lookup inv; DeleteUser uid realm] ∧
       before_user !! "id" = Some uid ∧
       delete_user uid realm g = Reply g' ∧
       before_user !! "username" = Some u ∧
       end_state r = Some ∅ ∧ changed r = true ∧
       msg r = MsgFormat "user {name} has been deleted" [("name", u)]).
Proof.
  intros Hc
    [(_ & _ & Hno & _)|(fetched & w' & Hr & Hrec & -> & ->)]%run_inv;
    [by destruct (Hno r)|].
  exists fetched. split; [done|].
  apply (reconcile_exit_facts _ _ _ _ _ _ Hc) in Hrec. cbv zeta in *.
  rewrite effective_realm, effective_name in Hrec.
  fold (realm_of inv) in Hrec. rewrite lookup_call_expected in Hrec.
  destruct Hrec as [H1|[H2|[H3|[H4|H5]]]].
  - left. by destruct H1 as (-> & ?).
  - right; left. by destruct H2 as (-> & ?).
  - right; right; left.
    destruct H3 as (after & u & i & -> & ?). by exists after, u, i.
  - right; right; right; left.
    destruct H4 as (after & id & i & -> & ?). by exists after, id, i.
  - right; right; right; right.
    destruct H5 as (uid & u & -> & ?). by exists uid, u.
Qed.
End exits.

Section after_mutation.
Context {G : Type} `{!KeycloakAPI G}.

Lemma mutation_not_check inv (g g' : G) out tr c :
  run inv g = (out, tr, g') → c ∈ tr → mutating c = true →
  check_mode inv = false.
Proof.
  assert (mutating (expected_lookup inv) = false) as Hl.
  { unfold expected_lookup. by destruct (d_id (spec inv)). }
  intros [->|(extra & fetched & -> & Hx)]%run_calls Hc Hm;
    [by apply elem_of_nil in Hc|].
  apply elem_of_cons in Hc as [->|Hc]; [congruence|].
  cbv zeta in Hx.
  destruct Hx as [->|[_ [Hx|[Hx|Hx]]]]; [by apply elem_of_nil in Hc|..].
  - by destruct Hx as (? & _ & _ & _ & ? & _).
  - by destruct Hx as (? & _ & _ & _ & ? & _).
  - by destruct Hx as (? & _ & _ & _ & ? & _).
Qed.
End after_mutation.

(** X14 (exit after a creation, lines 453-463). When a run that created
    the user exits normally, the creation was accepted and the user was
    then read back by name (also when an id was given); that user, which
    has a user name and an id, is the end state, the message carries both,
    and changed is true. *)
Theorem creation_reads_back {G : Type} `{!KeycloakAPI G} (inv : invocation)
    (g g' : G) (r : result) (tr : list call) (body : user) (realm : value) :
  run inv g = (ExitJson r, tr, g') →
  CreateUser body realm ∈ tr →
  ∃ after u i,
    tr = [expected_lookup inv; CreateUser body realm;
          GetUserByName (opt_value VStr (d_name (spec inv))) realm] ∧
    create_user body realm g = Reply g' ∧
    get_user_by_name (opt_value VStr (d_name (spec inv))) realm g'
    = Reply (Some after) ∧
    after !! "username" = Some u ∧ after !! "id" = Some i ∧
    end_state r = Some after ∧ changed r = true ∧
    msg r = MsgFormat "user {name} has been created with ID {id}"
              [("name", u); ("id", i)].
Proof.
  intros Hrun Hin.
  pose proof (mutation_not_check _ _ _ _ _ _ Hrun Hin eq_refl) as Hc.
  assert (CreateUser body realm ≠ expected_lookup inv) as Hl.
  { unfold expected_lookup. by destruct (d_id (spec inv)). }
  destruct (run_exit_facts _ _ _ _ _ Hc Hrun) as (fetched & _ & Hx).
  cbv zeta in Hx. destruct Hx as [H1|[H2|[H3|[H4|H5]]]].
  - destruct H1 as (-> & _). by apply list_elem_of_singleton in Hin.
  - destruct H2 as (-> & _). by apply list_elem_of_singleton in Hin.
  - destruct H3 as (after & u & i & -> & Hrest).
    apply elem_of_cons in Hin as [Hin|Hin]; [done|].
    apply elem_of_cons in Hin as [[= -> ->]|Hin].
    + by exists after, u, i.
    + by apply list_elem_of_singleton in Hin.
  - destruct H4 as (after & id & i & -> & _).
    repeat (apply elem_of_cons in Hin as [Hin|Hin]; [done|]).
    by apply elem_of_nil in Hin.
  - destruct H5 as (uid & u & -> & _).
    repeat (apply elem_of_cons in Hin as [Hin|Hin]; [done|]).
    by apply elem_of_nil in Hin.
Qed.

Lemma creation_reads_back_witness :
  let inv := sample_inv false new_email in
  let body := build_changeset (effective_params inv) ∅ in
  ∃ r tr g',
    run inv ([] : Store.store) = (ExitJson r, tr, g') ∧
    ∃ after u i,
      tr = [expected_lookup inv; CreateUser body (VStr "master");
            GetUserByName (opt_value VStr (d_name (spec inv)))
              (VStr "master")] ∧
      create_user body (VStr "master") ([] : Store.store) = Reply g' ∧
      get_user_by_name (opt_value VStr (d_name (spec inv))) (VStr "master") g'
      = Reply (Some after) ∧
      after !! "username" = Some u ∧ after !! "id" = Some i ∧
      end_state r = Some after ∧ changed r = true ∧
      msg r = MsgFormat "user {name} has been created with ID {id}"
                [("name", u); ("id", i)].
Proof.
  intros inv body.
  assert (∃ r tr g', run inv ([] : Store.store) = (ExitJson r, tr, g') ∧
                     tr !! 1 = Some (CreateUser body (VStr "master")))
    as (r & tr & g' & Hrun & Hc).
  { eexists _, _, _. split; vm_compute; reflexivity. }
  exists r, tr, g'. split; [exact Hrun|].
  apply (creation_reads_back inv ([] : Store.store) g' r tr body
           (VStr "master") Hrun).
  by apply list_elem_of_lookup_2 in Hc.
Defined.

(** X15 (exit after an update, lines 488-497). When a run that sent an
    update exits normally, the update was accepted, the body had an id,
    and the user read back under that id is the end state; the message
    carries the id of the user read back, and changed is true. *)
Theorem update_reads_back {G : Type} `{!KeycloakAPI G} (inv : invocation)
    (g g' : G) (r : result) (tr : list call) (body : user) (realm : value) :
  run inv g = (ExitJson r, tr, g') →
  UpdateUser body realm ∈ tr →
  ∃ after id i,
    tr = [expected_lookup inv; UpdateUser body realm;
          GetUserByUserid id realm] ∧
    update_user body realm g = Reply g' ∧
    body !! "id" = Some id ∧
    get_user_by_userid id realm g' = Reply (Some after) ∧
    after !! "id" = Some i ∧
    end_state r = Some after ∧ changed r = true ∧
    msg r = MsgFormat "user {id} has been updated" [("id", i)].
Proof.
  intros Hrun Hin.
  pose proof (mutation_not_check _ _ _ _ _ _ Hrun Hin eq_refl) as Hc.
  assert (UpdateUser body realm ≠ expected_lookup inv) as Hl.
  { unfold expected_lookup. by destruct (d_id (spec inv)). }
  destruct (run_exit_facts _ _ _ _ _ Hc Hrun) as (fetched & _ & Hx).
  cbv zeta in Hx. destruct Hx as [H1|[H2|[H3|[H4|H5]]]].
  - destruct H1 as (-> & _). by apply list_elem_of_singleton in Hin.
  - destruct H2 as (-> & _). by apply list_elem_of_singleton in Hin.
  - destruct H3 as (after & u & i & -> & _).
    repeat (apply elem_of_cons in Hin as [Hin|Hin]; [done|]).
    by apply elem_of_nil in Hin.
  - destruct H4 as (after & id & i & -> & Hrest).
    apply elem_of_cons in Hin as [Hin|Hin]; [done|].
    apply elem_of_cons in Hin as [[= -> ->]|Hin].
    + by exists after, id, i.
    + by apply list_elem_of_singleton in Hin.
  - destruct H5 as (uid & u & -> & _).
    repeat (apply elem_of_cons in Hin as [Hin|Hin]; [done|]).
    by apply elem_of_nil in Hin.
Qed.

Lemma update_reads_back_witness :
  let inv := sample_inv false new_email in
  let body :=
    merge_user (build_changeset (effective_params inv) strange) strange in
  ∃ r tr g',
    run inv midgard = (ExitJson r, tr, g') ∧
    ∃ after id i,
      tr = [expected_lookup inv; UpdateUser body (VStr "master");
            GetUserByUserid id (VStr "master")] ∧
      update_user body (VStr "master") midgard = Reply g' ∧
      body !! "id" = Some id ∧
      get_user_by_userid id (VStr "master") g' = Reply (Some after) ∧
      after !! "id" = Some i ∧
      end_state r = Some after ∧ changed r = true ∧
      msg r = MsgFormat "user {id} has been updated" [("id", i)].
Proof.
  intros inv body.
  assert (∃ r tr g', run inv midgard = (ExitJson r, tr, g') ∧
                     tr !! 1 = Some (UpdateUser body (VStr "master")))
    as (r & tr & g' & Hrun & Hc).
  { eexists _, _, _. split; vm_compute; reflexivity. }
  exists r, tr, g'. split; [exact Hrun|].
  apply (update_reads_back inv midgard g' r tr body (VStr "master") Hrun).
  by apply list_elem_of_lookup_2 in Hc.
Defined.

(** X16 (exit after a deletion, lines 499-520). When a run that sent a
    delete exits normally, the deletion was accepted, it was addressed to
    the id of the user that the lookup returned, the end state is the empty
    dict, the message carries the user name of that user, and changed is
    true. *)
Theorem deletion_reports {G : Type} `{!KeycloakAPI G} (inv : invocation)
    (g g' : G) (r : result) (tr : list call) (uid realm : value) :
  run inv g = (ExitJson r, tr, g') →
  DeleteUser uid realm ∈ tr →
  ∃ before_user u,
    reaches inv g (Some before_user) ∧
    tr = [expected_lookup inv; DeleteUser uid realm] ∧
    before_user !! "id" = Some uid ∧
    delete_user uid realm g = Reply g' ∧
    before_user !! "username" = Some u ∧
    end_state r = Some ∅ ∧ changed r = true ∧
    msg r = MsgFormat "user {name} has been deleted" [("name", u)].
Proof.
  intros Hrun Hin.
  pose proof (mutation_not_check _ _ _ _ _ _ Hrun Hin eq_refl) as Hc.
  assert (DeleteUser uid realm ≠ expected_lookup inv) as Hl.
  { unfold expected_lookup. by destruct (d_id (spec inv)). }
  destruct (run_exit_facts _ _ _ _ _ Hc Hrun) as (fetched & Hr & Hx).
  cbv zeta in Hx. destruct Hx as [H1|[H2|[H3|[H4|H5]]]].
  - destruct H1 as (-> & _). by apply list_elem_of_singleton in Hin.
  - destruct H2 as (-> & _). by apply list_elem_of_singleton in Hin.
  - destruct H3 as (after & u & i & -> & _).
    repeat (apply elem_of_cons in Hin as [Hin|Hin]; [done|]).
    by apply elem_of_nil in Hin.
  - destruct H4 as (after & id & i & -> & _).
    repeat (apply elem_of_cons in Hin as [Hin|Hin]; [done|]).
    by apply elem_of_nil in Hin.
  - destruct H5 as (uid' & u & -> & Hid & Hrest).
    apply elem_of_cons in Hin as [Hin|Hin]; [done|].
    apply list_elem_of_singleton in Hin. injection Hin as -> ->.
    destruct fetched as [before_user|];
      [|by change (default ∅ None) with (∅ : user) in Hid;
           rewrite lookup_empty in Hid].
    by exists before_user, u.
Qed.

Lemma deletion_reports_witness :
  let inv := sample_inv false remove_strange in
  ∃ r tr g',
    run inv midgard = (ExitJson r, tr, g') ∧
    ∃ before_user u,
      reaches inv midgard (Some before_user) ∧
      tr = [expected_lookup inv;
            DeleteUser (VStr "23f38145") (VStr "master")] ∧
      before_user !! "id" = Some (VStr "23f38145") ∧
      delete_user (VStr "23f38145") (VStr "master") midgard = Reply g' ∧
      before_user !! "username" = Some u ∧
      end_state r = Some ∅ ∧ changed r = true ∧
      msg r = MsgFormat "user {name} has been deleted" [("name", u)].
Proof.
  intros inv.
  assert (∃ r tr g', run inv midgard = (ExitJson r, tr, g') ∧
                     tr !! 1 = Some (DeleteUser (VStr "23f38145")
                                        (VStr "master")))
    as (r & tr & g' & Hrun & Hc).
  { eexists _, _, _. split; vm_compute; reflexivity. }
  exists r, tr, g'. split; [exact Hrun|].
  apply (deletion_reports inv midgard g' r tr (VStr "23f38145")
           (VStr "master") Hrun).
  by apply list_elem_of_lookup_2 in Hc.
Defined.

(** ** Runs that fail after the remote side has changed *)

(** X17 (created but not found, lines 454-461). If the creation is
    accepted and the lookup by name that follows finds nobody, the run
    raises [TypeError] on [after_user["username"]]: the user has been
    created, and no result is reported. *)
Theorem created_but_not_found {G : Type} `{!KeycloakAPI G}
    (inv : invocation) (g g1 : G) (fetched : option user) (n : string) :
  reaches inv g fetched →
  default ∅ fetched = ∅ →
  d_state (spec inv) ≠ Some absent →
  d_name (spec inv) = Some n →
  check_mode inv = false →
  let body := build_changeset (effective_params inv) ∅ in
  create_user body (realm_of inv) g = Reply g1 →
  get_user_by_name (VStr n) (realm_of inv) g1 = Reply None →
  run inv g =
  (Raise TypeError,
   [expected_lookup inv; CreateUser body (realm_of inv);
    GetUserByName (VStr n) (realm_of inv)], g1).
Proof.
  intros Hr Hb Hs Hn Hc body Hcr Hget.
  rewrite (run_reaches _ _ _ Hr). unfold reconcile. rewrite Hb, Hc.
  cbv zeta. rewrite decide_True by done.
  rewrite (state_present_eq _ Hs), effective_name, effective_realm, Hn.
  fold (realm_of inv).
  assert (merge_user (build_changeset (effective_params inv) ∅) ∅ = body)
    as -> by (unfold merge_user; apply (right_id_L ∅ (∪))).
  simpl. kc_simpl. rewrite Hcr. kc_simpl. rewrite Hget.
  by rewrite lookup_call_expected.
Qed.

Lemma created_but_not_found_witness :
  let inv := sample_inv false new_email in
  let body := build_changeset (effective_params inv) ∅ in
  run inv forgetful =
  (Raise TypeError,
   [expected_lookup inv; CreateUser body (realm_of inv);
    GetUserByName (VStr "drstrange") (realm_of inv)], forgetful).
Proof.
  intros inv body.
  apply (created_but_not_found inv forgetful forgetful None "drstrange");
    [reaches_tac|reflexivity|discriminate|reflexivity..].
Defined.

(** X18 (update of a body without id, lines 489-491). If the merged body
    has no [id] and the update is accepted all the same, the run raises
    [KeyError] on [desired_user["id"]] after the update: the remote side
    has changed, no result is reported and nothing is read back. *)
Theorem update_without_id {G : Type} `{!KeycloakAPI G} (inv : invocation)
    (g g1 : G) (before_user : user) :
  reaches inv g (Some before_user) →
  before_user ≠ ∅ →
  d_state (spec inv) ≠ Some absent →
  check_mode inv = false →
  let body :=
    merge_user (build_changeset (effective_params inv) before_user)
      before_user in
  py_eq (VDict body) (VDict before_user) = false →
  update_user body (realm_of inv) g = Reply g1 →
  body !! "id" = None →
  run inv g =
  (Raise (KeyError "id"),
   [expected_lookup inv; UpdateUser body (realm_of inv)], g1).
Proof.
  intros Hr Hb Hs Hc body Hne Hup Hid.
  rewrite (run_reaches _ _ _ Hr). unfold reconcile. rewrite Hc.
  cbv zeta. change (default ∅ (Some before_user)) with before_user.
  fold body. rewrite decide_False by done.
  rewrite (state_present_eq _ Hs), effective_realm. fold (realm_of inv).
  assert (py_eq (VStr "present") (VStr "present") = true) as -> by done.
  rewrite Hne. kc_simpl. rewrite Hup. kc_simpl. rewrite Hid.
  by rewrite lookup_call_expected.
Qed.

Lemma update_without_id_witness :
  let inv := sample_inv false new_email in
  let body :=
    merge_user (build_changeset (effective_params inv) idless) idless in
  run inv (always idless true) =
  (Raise (KeyError "id"),
   [expected_lookup inv; UpdateUser body (realm_of inv)],
   always idless true).
Proof.
  intros inv body.
  apply (update_without_id inv (always idless true) (always idless true)
           idless);
    [reaches_tac| |discriminate|reflexivity|by vm_compute|reflexivity
    |by vm_compute].
  intros H. apply (f_equal (λ m : user, m !! "username")) in H.
  by vm_compute in H.
Defined.

(** X19 (deletion of a user without id or name, lines 509-518). With a
    user found, state absent and outside check mode: if the user has no
    [id] the run raises [KeyError] before any delete call; if it has an
    id but no [username], the delete call is made and accepted, and the
    run then raises [KeyError] on the message. *)
Theorem deletion_key_errors {G : Type} `{!KeycloakAPI G} (inv : invocation)
    (g g1 : G) (before_user : user) (uid : value) :
  reaches inv g (Some before_user) →
  before_user ≠ ∅ →
  d_state (spec inv) = Some absent →
  check_mode inv = false →
  (before_user !! "id" = None →
   run inv g = (Raise (KeyError "id"), [expected_lookup inv], g)) ∧
  (before_user !! "id" = Some uid →
   delete_user uid (realm_of inv) g = Reply g1 →
   before_user !! "username" = None →
   run inv g =
   (Raise (KeyError "username"),
    [expected_lookup inv; DeleteUser uid (realm_of inv)], g1)).
Proof.
  intros Hr Hb Hs Hc.
  rewrite (run_reaches _ _ _ Hr). unfold reconcile. rewrite Hc.
  cbv zeta. change (default ∅ (Some before_user)) with before_user.
  rewrite decide_False by done.
  rewrite (state_absent_eq _ Hs), effective_realm. fold (realm_of inv).
  assert (py_eq (VStr "absent") (VStr "present") = false) as -> by done.
  rewrite lookup_call_expected. split.
  - intros Hid. kc_simpl. by rewrite Hid.
  - intros Hid Hdel Hn. kc_simpl. rewrite Hid. kc_simpl. rewrite Hdel.
    kc_simpl. by rewrite Hn.
Qed.

Lemma deletion_key_errors_witness :
  let inv := sample_inv false remove_strange in
  run inv (always idless true)
  = (Raise (KeyError "id"), [expected_lookup inv], always idless true) ∧
  run inv (always nameless true)
  = (Raise (KeyError "username"),
     [expected_lookup inv; DeleteUser (VStr "23f38145") (realm_of inv)],
     always nameless true).
Proof.
  intros inv. split.
  - destruct (deletion_key_errors inv (always idless true)
                (always idless true) idless VNone) as [H _];
      [reaches_tac| |reflexivity|reflexivity|].
    + intros H. apply (f_equal (λ m : user, m !! "username")) in H.
      by vm_compute in H.
    + apply H. by vm_compute.
  - destruct (deletion_key_errors inv (always nameless true)
                (always nameless true) nameless (VStr "23f38145")) as [_ H];
      [reaches_tac| |reflexivity|reflexivity|].
    + intros H. apply (f_equal (λ m : user, m !! "id")) in H.
      by vm_compute in H.
    + apply H; by vm_compute.
Defined.

(** ** Options the constructor refuses *)

(** X20 (credentials required, lines 358-369). When the three login
    options are not all given, and either no token is given or one of the
    three is, the run fails in the constructor, whatever the gateway would
    answer: with the message of [required_together] when one of the three
    is given, otherwise with that of the first group of [required_one_of]
    that has no member. No call is made. *)
Theorem credentials_required {G : Type} `{!KeycloakAPI G}
    (inv : invocation) (g : G) :
  login_complete (conn inv) = false →
  token (conn inv) = None ∨ login_started (conn inv) = true →
  run inv g =
  (FailJson
     (MsgText
        (if login_started (conn inv)
         then "parameters are required together: auth_realm, auth_username, auth_password"
         else if bool_decide (d_id (spec inv) = None ∧ d_name (spec inv) = None)
         then "one of the following is required: id, name"
         else "one of the following is required: token, auth_realm, auth_username, auth_password")),
   [], g).
Proof.
  destruct inv as [[url cid r n p t] d al chk df].
  destruct d as [st rl uid nm att em en fn ln ra cr ev]. simpl.
  intros Hc Ht. rewrite run_unfold, fetch_current_spec.
  destruct r, n, p; try discriminate Hc;
    try (vm_compute; reflexivity).
  destruct Ht as [->|Ht]; [|discriminate Ht].
  destruct uid, nm; vm_compute; reflexivity.
Qed.

(** No login at all, and a token with a user name alone, against a
    gateway that would refuse the token. *)
Lemma credentials_required_witness :
  run (with_conn no_login (sample_inv false new_email)) locked_out
  = (FailJson
       (MsgText "one of the following is required: token, auth_realm, auth_username, auth_password"),
     [], locked_out) ∧
  run (with_conn half_login (sample_inv false new_email)) locked_out
  = (FailJson
       (MsgText "parameters are required together: auth_realm, auth_username, auth_password"),
     [], locked_out).
Proof.
  split.
  - apply (credentials_required
             (with_conn no_login (sample_inv false new_email)));
      [reflexivity|by left].
  - apply (credentials_required
             (with_conn half_login (sample_inv false new_email)));
      [reflexivity|by right].
Defined.

(** ** Normalisation of the attributes *)

Lemma params_set_set x v w ps :
  params_set x v (params_set x w ps) = params_set x v ps.
Proof.
  induction ps as [|[k u] ps IH]; simpl.
  - by rewrite decide_True.
  - case_decide; simpl; rewrite ?decide_True, ?decide_False by done;
      [done|]. by rewrite IH.
Qed.

Lemma normalize_is_list v : is_list (normalize v) = true.
Proof. unfold normalize. by destruct v. Qed.

Lemma normalize_normalize v : normalize (normalize v) = normalize v.
Proof. unfold normalize at 1. by rewrite normalize_is_list. Qed.

(** X21 (normalisation settles, lines 385-394). Normalising the
    attributes a second time changes nothing, and after normalisation
    every value of an [attributes] dict is a list. *)
Theorem normalisation_settles (ps : params) :
  normalize_attributes (normalize_attributes ps) = normalize_attributes ps ∧
  ∀ d k v, params_get "attributes" (normalize_attributes ps) = VDict d →
           d !! k = Some v → is_list v = true.
Proof.
  assert (∀ d0, params_get "attributes" ps = VDict d0 →
            normalize_attributes ps
            = params_set "attributes" (VDict (normalize <$> d0)) ps) as Hn.
  { intros d0 Hget. unfold normalize_attributes. by rewrite Hget. }
  destruct (params_get "attributes" ps) as [| | | | |d0] eqn:Hget.
  1-5: assert (normalize_attributes ps = ps) as ->
         by (unfold normalize_attributes; by rewrite Hget);
       split; [unfold normalize_attributes; by rewrite Hget|];
       intros d k v Hd; by rewrite Hget in Hd.
  rewrite (Hn d0 eq_refl). split.
  - unfold normalize_attributes. rewrite params_get_set, decide_True by done.
    rewrite params_set_set. do 2 f_equal.
    rewrite <- map_fmap_compose. apply map_fmap_ext.
    intros ???. apply normalize_normalize.
  - intros d k v. rewrite params_get_set, decide_True by done.
    intros [= <-]. rewrite lookup_fmap.
    destruct (d0 !! k); simpl; [|done].
    intros [= <-]. apply normalize_is_list.
Qed.

Lemma normalisation_settles_witness :
  let ps := module_params (sample_inv false attr_spec) in
  normalize_attributes (normalize_attributes ps) = normalize_attributes ps ∧
  params_get "attributes" (normalize_attributes ps)
  = VDict (normalize <$> {["a" := VStr "v1"]}) ∧
  (normalize <$> ({["a" := VStr "v1"]} : gmap string value)) !! "a"
  = Some (VList [VStr "v1"]) ∧
  is_list (VList [VStr "v1"]) = true.
Proof.
  intros ps. destruct (normalisation_settles ps) as [H1 H2].
  split_and!; [exact H1|reflexivity|reflexivity|].
  apply (H2 (normalize <$> {["a" := VStr "v1"]}) "a"); reflexivity.
Defined.

(** ** Runs that end at the first branch of each case *)

(** X22 (nobody to delete, lines 410-440). When the lookup finds nobody,
    or returns an empty dict, and the state is absent, the run exits
    unchanged with an empty end state and the message of line 439, after
    the lookup alone, in check mode or not. *)
Theorem absent_user_left_alone {G : Type} `{!KeycloakAPI G}
    (inv : invocation) (g : G) (fetched : option user) :
  reaches inv g fetched →
  default ∅ fetched = ∅ →
  d_state (spec inv) = Some absent →
  run inv g =
  (ExitJson
     {| changed := false;
        msg := MsgText "user does not exist; doing nothing.";
        diff := if diff_mode inv then Some (VStr "", VStr "") else None;
        res_user := VDict ∅; end_state := Some ∅ |},
   [expected_lookup inv], g).
Proof.
  intros Hr Hb Hs.
  rewrite (run_reaches _ _ _ Hr). unfold reconcile. cbv zeta.
  rewrite Hb, decide_True by done. rewrite (state_absent_eq _ Hs).
  assert (py_eq (VStr "absent") (VStr "absent") = true) as -> by done.
  rewrite lookup_call_expected. simpl. unfold when_diff.
  by destruct (diff_mode inv).
Qed.

Lemma absent_user_left_alone_witness :
  let inv := sample_inv true remove_strange in
  run inv (always ∅ false) =
  (ExitJson
     {| changed := false;
        msg := MsgText "user does not exist; doing nothing.";
        diff := None; res_user := VDict ∅; end_state := Some ∅ |},
   [expected_lookup inv], always ∅ false).
Proof.
  intros inv.
  apply (absent_user_left_alone inv (always ∅ false) (Some ∅));
    [reaches_tac|reflexivity..].
Defined.

(** X23 (nothing to change, no user name, lines 469-477). When the merged
    body equals the user that was found and that user has no [username],
    the run raises [KeyError] while it builds the message: no result is
    reported, and the lookup is its only call. *)
Theorem settled_without_name {G : Type} `{!KeycloakAPI G}
    (inv : invocation) (g : G) (before_user : user) :
  reaches inv g (Some before_user) →
  before_user ≠ ∅ →
  d_state (spec inv) ≠ Some absent →
  py_eq (VDict (merge_user
                  (build_changeset (effective_params inv) before_user)
                  before_user))
        (VDict before_user) = true →
  before_user !! "username" = None →
  run inv g = (Raise (KeyError "username"), [expected_lookup inv], g).
Proof.
  intros Hr Hb Hs Heq Hn.
  rewrite (run_reaches _ _ _ Hr). unfold reconcile. cbv zeta.
  change (default ∅ (Some before_user)) with before_user.
  rewrite decide_False by done. rewrite (state_present_eq _ Hs).
  assert (py_eq (VStr "present") (VStr "present") = true) as -> by done.
  rewrite Heq. kc_simpl. rewrite Hn. by rewrite lookup_call_expected.
Qed.

Lemma settled_without_name_witness :
  let inv := sample_inv false only_id in
  run inv (always bare true)
  = (Raise (KeyError "username"), [expected_lookup inv], always bare true).
Proof.
  intros inv.
  apply (settled_without_name inv (always bare true) bare);
    [reaches_tac| |discriminate|by vm_compute|by vm_compute].
  intros H. apply (f_equal (λ m : user, m !! "id")) in H.
  by vm_compute in H.
Defined.
